(** * NetworkBuilder: the graph query engine of the network explorer

    A shallow embedding of [src/services/networkBuilder.ts] (class
    [NetworkBuilder]) together with the records of [src/types.ts] it works on,
    and the properties of its public operations.

    Conventions of the embedding.
    - A JavaScript [Set<string>] is the list of its members in insertion
      order, a [Map<string, V>] the list of its entries in insertion order.
      Order is observable in the program (stable sorting, [slice], the order
      of the returned nodes), so both are kept as lists.
    - The node objects handed to the constructor are shared, mutable records.
      The array [allNodes] is the store: a node object is identified by its
      position in that array, a [NodeRef].  [buildNetwork] returns the store
      it leaves behind together with its result, and the node list of a
      result is a list of references into the store.
    - JavaScript numbers that count things or come from the filter state are
      integers ([Z]); the colour interpolation is done on IEEE binary64
      numbers, as in the program.
    - Strings are byte strings; [toLowerCase] and [trim] act on the ASCII
      letters and the ASCII white space. *)

From stdpp Require Import list.
From Stdlib Require Import ZArith List String Ascii Bool Lia Permutation.
From Stdlib Require Import DecimalString.
From Stdlib Require PrimFloat SpecFloat FloatOps Uint63.
Import ListNotations.

(** [length] is the length of a list throughout. *)
Abbreviation length := List.length (only parsing).

Open Scope string_scope.
Open Scope list_scope.
Open Scope Z_scope.

(** ** JavaScript strings and values *)

Definition lowerAscii (c : ascii) : ascii :=
  let n := nat_of_ascii c in
  if ((65 <=? n) && (n <=? 90))%nat then ascii_of_nat (n + 32) else c.

Fixpoint toLowerCase (s : string) : string :=
  match s with
  | EmptyString => EmptyString
  | String c r => String (lowerAscii c) (toLowerCase r)
  end.

Definition isSpace (c : ascii) : bool :=
  let n := nat_of_ascii c in
  ((9 <=? n) && (n <=? 13) || (n =? 32))%nat.

Fixpoint trimStart (s : string) : string :=
  match s with
  | String c r => if isSpace c then trimStart r else s
  | EmptyString => EmptyString
  end.

Fixpoint trimEnd (s : string) : string :=
  match s with
  | EmptyString => EmptyString
  | String c r =>
      match trimEnd r with
      | EmptyString => if isSpace c then EmptyString else String c EmptyString
      | r' => String c r'
      end
  end.

Definition trim (s : string) : string := trimEnd (trimStart s).

(** [s.includes(t)]: [t] occurs in [s] at some position. *)
Fixpoint includes (s t : string) : bool :=
  String.prefix t s
  || match s with
     | EmptyString => false
     | String _ r => includes r t
     end.

(** The values a property of a node can hold.  [VObject] stands for an array
    or object and carries what [String(...)] makes of it. *)
Inductive JsVal : Type :=
  | VUndefined
  | VNull
  | VBool (b : bool)
  | VNumber (z : Z)
  | VString (s : string)
  | VObject (shown : string).

Definition truthy (v : JsVal) : bool :=
  match v with
  | VUndefined | VNull => false
  | VBool b => b
  | VNumber z => negb (z =? 0)
  | VString s => negb (String.eqb s EmptyString)
  | VObject _ => true
  end.

(** [a || b] *)
Definition jsOr (a b : JsVal) : JsVal := if truthy a then a else b.

Definition showZ (z : Z) : string := NilZero.string_of_int (Z.to_int z).

(** [String(v)] *)
Definition toString (v : JsVal) : string :=
  match v with
  | VUndefined => "undefined"
  | VNull => "null"
  | VBool true => "true"
  | VBool false => "false"
  | VNumber z => showZ z
  | VString s => s
  | VObject shown => shown
  end.

Definition ofString (o : option string) : JsVal :=
  match o with Some s => VString s | None => VUndefined end.

Definition ofNumber (o : option Z) : JsVal :=
  match o with Some z => VNumber z | None => VUndefined end.

(** [parseInt(s)]: optional white space, an optional sign, then the longest
    run of digits, decimal or, after a "0x" prefix, hexadecimal; [None] is
    NaN. *)
Definition digitOf (c : ascii) : option Z :=
  let n := nat_of_ascii c in
  if ((48 <=? n) && (n <=? 57))%nat then Some (Z.of_nat (n - 48)) else None.

Definition hexDigitOf (c : ascii) : option Z :=
  let n := nat_of_ascii c in
  if ((48 <=? n) && (n <=? 57))%nat then Some (Z.of_nat (n - 48))
  else if ((97 <=? n) && (n <=? 102))%nat then Some (Z.of_nat (n - 87))
  else if ((65 <=? n) && (n <=? 70))%nat then Some (Z.of_nat (n - 55))
  else None.

Fixpoint parseDigits (digit : ascii -> option Z) (radix acc : Z) (s : string)
  : Z :=
  match s with
  | EmptyString => acc
  | String c r =>
      match digit c with
      | Some d => parseDigits digit radix (radix * acc + d) r
      | None => acc
      end
  end.

Definition parseRadix (digit : ascii -> option Z) (radix : Z) (s : string)
  : option Z :=
  match s with
  | EmptyString => None
  | String c _ =>
      match digit c with
      | Some _ => Some (parseDigits digit radix 0 s)
      | None => None
      end
  end.

Definition parseUnsigned (s : string) : option Z :=
  match s with
  | String "0"%char (String "x"%char r) => parseRadix hexDigitOf 16 r
  | String "0"%char (String "X"%char r) => parseRadix hexDigitOf 16 r
  | _ => parseRadix digitOf 10 s
  end.

Definition parseInt (s : string) : option Z :=
  match trimStart s with
  | String "-"%char r => option_map Z.opp (parseUnsigned r)
  | String "+"%char r => parseUnsigned r
  | s' => parseUnsigned s'
  end.

(** ** Sets and maps with insertion order *)

Definition JsSet := list string.

Definition set_has (s : JsSet) (x : string) : bool :=
  existsb (String.eqb x) s.

Definition set_add (x : string) (s : JsSet) : JsSet :=
  if set_has s x then s else s ++ [x].

(** [new Set(iterable)] *)
Definition newSet (xs : list string) : JsSet :=
  fold_left (fun s x => set_add x s) xs [].

Definition JsMap (V : Type) := list (string * V).

Section JsMapOps.
Context {V : Type}.

Fixpoint map_get (m : JsMap V) (k : string) : option V :=
  match m with
  | [] => None
  | (k', v) :: r => if String.eqb k k' then Some v else map_get r k
  end.

Definition map_has (m : JsMap V) (k : string) : bool :=
  match map_get m k with Some _ => true | None => false end.

(** [m.set(k, v)]: an existing key keeps its place, a new one goes last. *)
Fixpoint map_set (k : string) (v : V) (m : JsMap V) : JsMap V :=
  match m with
  | [] => [(k, v)]
  | (k', v') :: r =>
      if String.eqb k k' then (k', v) :: r else (k', v') :: map_set k v r
  end.

Definition map_keys (m : JsMap V) : list string := map fst m.
Definition map_values (m : JsMap V) : list V := map snd m.
End JsMapOps.

(** [a.includes(x)] on arrays of strings and of numbers *)
Definition includesStr (a : list string) (x : string) : bool :=
  existsb (String.eqb x) a.

Definition includesNum (a : list Z) (x : option Z) : bool :=
  match x with
  | Some z => existsb (Z.eqb z) a
  | None => false
  end.

(** [a.slice(0, n)] *)
Definition slice0 {A : Type} (n : Z) (a : list A) : list A :=
  if n <? 0 then firstn (Z.to_nat (Z.of_nat (length a) + n)) a
  else firstn (Z.to_nat n) a.

(** [a.sort((x, y) => key(y) - key(x))]: descending by key, stable. *)
Section SortDesc.
Context {A : Type} (key : A -> Z).

Fixpoint insertDesc (x : A) (l : list A) : list A :=
  match l with
  | [] => [x]
  | y :: r => if key x <? key y then y :: insertDesc x r else x :: y :: r
  end.

Definition sortDesc (l : list A) : list A := fold_right insertDesc [] l.
End SortDesc.

(** ** The data model ([src/types.ts]) *)

Record GraphNode : Type := mkNode {
  id : string;
  name : string;
  val : option Z;
  totalVal : option Z;
  color : option string;
  baseColor : option string;
  node_type : string;
  title : option string;
  display_label : option string;
  properties : option (list (string * JsVal));
  full_name : option string;
  text : option string;
  section_num : JsVal;
  section_heading : option string;
  section_text : option string;
  title_num : option Z;
  (** every further attribute of the object (part, chapter, index_heading,
      the d3 coordinates, ...) *)
  other : list (string * JsVal)
}.

(** A link end is an id or, once d3 has resolved it, a node object; the
    program reads nothing but the id of such an object. *)
Inductive LinkEnd : Type :=
  | EndId (s : string)
  | EndNode (n : GraphNode).

Record GraphLink : Type := mkLink {
  source : LinkEnd;
  target : LinkEnd;
  edge_type : string;
  action : string
}.

Record NetworkBuilderState : Type := mkState {
  searchTerms : list string;
  searchFields : list string;
  allowedNodeTypes : list string;
  allowedEdgeTypes : list string;
  allowedTitles : list Z;
  allowedSections : list string;
  seedNodeIds : list string;
  expansionDepth : Z;
  maxNodesPerExpansion : Z;
  maxTotalNodes : Z
}.

(** A reference to a node object: its position in [allNodes]. *)
Abbreviation NodeRef := nat.

Record FilteredGraph : Type := mkGraph {
  nodes : list NodeRef;
  links : list GraphLink;
  truncated : bool;
  matchedCount : Z
}.

Inductive Logic : Type := AND | OR.
Inductive RankingMode : Type := global | subgraph.

Record Neighbor : Type := mkNeighbor {
  neighborId : string;
  edgeType : string
}.

Record NetworkBuilder : Type := mkBuilder {
  allNodes : list GraphNode;
  allLinks : list GraphLink;
  adjacencyMap : JsMap (list Neighbor)
}.

(** [typeof e === 'string' ? e : e.id] *)
Definition endId (e : LinkEnd) : string :=
  match e with
  | EndId s => s
  | EndNode n => id n
  end.

Definition sourceId (l : GraphLink) : string := endId (source l).
Definition targetId (l : GraphLink) : string := endId (target l).

(** ** The constructor: the adjacency index *)

Definition map_push (k : string) (x : Neighbor) (m : JsMap (list Neighbor))
  : JsMap (list Neighbor) :=
  match map_get m k with
  | Some a => map_set k (a ++ [x]) m
  | None => m
  end.

Definition addLink (adj : JsMap (list Neighbor)) (link : GraphLink)
  : JsMap (list Neighbor) :=
  let s := sourceId link in
  let t := targetId link in
  let e := edge_type link in
  let adj1 := if map_has adj s then adj else map_set s [] adj in
  let adj2 := if map_has adj1 t then adj1 else map_set t [] adj1 in
  let adj3 := map_push s (mkNeighbor t e) adj2 in
  map_push t (mkNeighbor s e) adj3.

Definition constructor (nodes : list GraphNode) (links : list GraphLink)
  : NetworkBuilder :=
  {| allNodes := nodes;
     allLinks := links;
     adjacencyMap := fold_left addLink links [] |}.

(** ** searchNodes *)

(** The node seen as a JavaScript object: its own properties by name. *)
Definition own (node : GraphNode) : list (string * JsVal) :=
  [ ("id", VString (id node));
    ("name", VString (name node));
    ("val", ofNumber (val node));
    ("totalVal", ofNumber (totalVal node));
    ("color", ofString (color node));
    ("baseColor", ofString (baseColor node));
    ("node_type", VString (node_type node));
    ("title", ofString (title node));
    ("display_label", ofString (display_label node));
    ("properties",
      match properties node with
      | Some _ => VObject "[object Object]"
      | None => VUndefined
      end);
    ("full_name", ofString (full_name node));
    ("text", ofString (text node));
    ("section_num", section_num node);
    ("section_heading", ofString (section_heading node));
    ("section_text", ofString (section_text node));
    ("title_num", ofNumber (title_num node)) ]
  ++ other node.

(** [(node as any)[field]], for the properties the object itself holds *)
Definition attr (node : GraphNode) (field : string) : JsVal :=
  match map_get (own node) field with
  | Some v => v
  | None => VUndefined
  end.

(** [node.properties?.key] *)
Definition prop (node : GraphNode) (key : string) : JsVal :=
  match properties node with
  | Some bag =>
      match map_get bag key with
      | Some v => v
      | None => VUndefined
      end
  | None => VUndefined
  end.

(** [node.node_type === ty ? node.name : null] *)
Definition nameIf (node : GraphNode) (ty : string) : JsVal :=
  if String.eqb (node_type node) ty then VString (name node) else VNull.

(** What the end of the field callback pushes for a resolved [value]. *)
Definition pushed (value : JsVal) : list string :=
  match value with
  | VUndefined | VNull => []
  | _ => [toLowerCase (toString value)]
  end.

Definition stringValues (bag : list (string * JsVal)) : list string :=
  flat_map (fun kv => match snd kv with
                      | VString s => [toLowerCase s]
                      | _ => []
                      end) bag.

(** The strings one search field contributes for one node (the [switch]). *)
Definition fieldValues (node : GraphNode) (field : string) : list string :=
  if String.eqb field "text" then
    pushed (jsOr (jsOr (jsOr (prop node "text") (ofString (text node)))
                       (ofString (section_text node)))
                 (attr node "index_heading"))
  else if String.eqb field "full_name" then
    pushed (jsOr (prop node "full_name") (ofString (full_name node)))
  else if String.eqb field "display_label" then
    pushed (ofString (display_label node))
  else if String.eqb field "definition" then
    pushed (prop node "definition")
  else if String.eqb field "entity" then
    pushed (nameIf node "entity")
  else if String.eqb field "concept" then
    pushed (nameIf node "concept")
  else if String.eqb field "properties" then
    match properties node with
    | Some bag => stringValues bag
    | None => []
    end
  else if String.eqb field "section_text" then
    pushed (jsOr (jsOr (ofString (section_text node)) (prop node "text"))
                 (ofString (text node)))
  else if String.eqb field "section_heading" then
    pushed (ofString (section_heading node))
  else if String.eqb field "section_num" then
    pushed (section_num node)
  else if String.eqb field "tag" then
    pushed (nameIf node "concept")
  else
    pushed (attr node field).

Definition searchableValues (node : GraphNode) (fields : list string)
  : list string :=
  flat_map (fieldValues node) fields.

(** [searchableValues.some(v => v.includes(term))] *)
Definition termFound (values : list string) (term : string) : bool :=
  existsb (fun v => includes v term) values.

Definition nodeMatches (logic : Logic) (terms values : list string) : bool :=
  match logic with
  | OR => existsb (termFound values) terms
  | AND => forallb (termFound values) terms
  end.

Definition searchNodes (this : NetworkBuilder)
  (terms fields : list string) (logic : Logic) : JsSet :=
  let normalizedTerms := map (fun t => trim (toLowerCase t)) terms in
  fold_left
    (fun matchedIds node =>
       if nodeMatches logic normalizedTerms (searchableValues node fields)
       then set_add (id node) matchedIds
       else matchedIds)
    (allNodes this) [].

(** ** filterByAttributes *)

Definition isSectionOrIndex (node : GraphNode) : bool :=
  String.eqb (node_type node) "section" || String.eqb (node_type node) "index".

(** The title test of the source without its "empty list allows all" guard. *)
Definition titlePredicate (titles : list Z) (node : GraphNode) : bool :=
  isSectionOrIndex node
  && ((truthy (ofNumber (title_num node)) && includesNum titles (title_num node))
      || match title node with
         | Some s => truthy (VString s) && includesNum titles (parseInt s)
         | None => false
         end).

(** The section test of the source without its guard. *)
Definition sectionPredicate (sections : list string) (node : GraphNode) : bool :=
  truthy (section_num node)
  && existsb
       (fun s => includes (toLowerCase (toString (section_num node)))
                          (toLowerCase s))
       sections.

Definition typeMatch (types : list string) (node : GraphNode) : bool :=
  (length types =? 0)%nat || includesStr types (node_type node).

Definition titleMatch (titles : list Z) (node : GraphNode) : bool :=
  (length titles =? 0)%nat || titlePredicate titles node.

Definition sectionMatch (sections : list string) (node : GraphNode) : bool :=
  (length sections =? 0)%nat || sectionPredicate sections node.

Definition attributesMatch (types : list string) (titles : list Z)
  (sections : list string) (node : GraphNode) : bool :=
  if (0 <? length types)%nat then typeMatch types node
  else if (length titles =? 0)%nat && (length sections =? 0)%nat then true
  else titleMatch titles node || sectionMatch sections node.

Definition filterByAttributes (this : NetworkBuilder)
  (allowedNodeTypes : list string) (allowedTitles : list Z)
  (allowedSections : list string) : JsSet :=
  fold_left
    (fun matchedIds node =>
       if attributesMatch allowedNodeTypes allowedTitles allowedSections node
       then set_add (id node) matchedIds
       else matchedIds)
    (allNodes this) [].

(** ** expandFromSeeds *)

(** [this.adjacencyMap.get(nodeId) || []] *)
Definition neighborsOf (this : NetworkBuilder) (nodeId : string)
  : list Neighbor :=
  match map_get (adjacencyMap this) nodeId with
  | Some a => a
  | None => []
  end.

Definition limitedNeighbors (this : NetworkBuilder) (maxNeighborsPerNode : Z)
  (allowed : list string) (nodeId : string) : list Neighbor :=
  let neighbors := neighborsOf this nodeId in
  let filteredNeighbors :=
    if (length allowed =? 0)%nat then neighbors
    else filter (fun n => includesStr allowed (edgeType n)) neighbors in
  if 0 <? maxNeighborsPerNode
  then slice0 maxNeighborsPerNode filteredNeighbors
  else filteredNeighbors.

(** The state of one layer: [(expanded, nextLayer)]. *)
Definition discover (st : JsSet * JsSet) (n : Neighbor) : JsSet * JsSet :=
  let '(expanded, nextLayer) := st in
  if set_has expanded (neighborId n) then st
  else (set_add (neighborId n) expanded, set_add (neighborId n) nextLayer).

Definition visit (this : NetworkBuilder) (maxNeighborsPerNode : Z)
  (allowed : list string) (st : JsSet * JsSet) (nodeId : string)
  : JsSet * JsSet :=
  fold_left discover (limitedNeighbors this maxNeighborsPerNode allowed nodeId) st.

(** The [for] loop with [rounds] iterations left. *)
Fixpoint expandLoop (this : NetworkBuilder) (maxNeighborsPerNode : Z)
  (allowed : list string) (rounds : nat) (expanded currentLayer : JsSet)
  : JsSet :=
  match rounds with
  | O => expanded
  | S rounds' =>
      let '(expanded', nextLayer) :=
        fold_left (visit this maxNeighborsPerNode allowed) currentLayer
                  (expanded, []) in
      if (length nextLayer =? 0)%nat then expanded'
      else expandLoop this maxNeighborsPerNode allowed rounds' expanded' nextLayer
  end.

Definition expandFromSeeds (this : NetworkBuilder) (seedIds : JsSet)
  (depth maxNeighborsPerNode : Z) (allowedEdgeTypes : list string) : JsSet :=
  expandLoop this maxNeighborsPerNode allowedEdgeTypes (Z.to_nat depth)
             (newSet seedIds) (newSet seedIds).

(** ** selectTopNodesByDegree *)

Definition selectTopNodesByDegree (this : NetworkBuilder) (nodeIds : JsSet)
  (maxNodes : Z) : list string :=
  let nodeDegrees :=
    fold_left
      (fun m nodeId =>
         map_set nodeId (Z.of_nat (length (neighborsOf this nodeId))) m)
      nodeIds [] in
  map fst (slice0 maxNodes (sortDesc snd nodeDegrees)).

(** ** Numbers of the colour scales

    [degree / maxVal] and the interpolation are binary64 computations. *)

Definition number := PrimFloat.float.

(** An integer as a number (exact below 2^53). *)
Definition numberOfZ (z : Z) : number :=
  if z <? 0 then PrimFloat.opp (PrimFloat.of_uint63 (Uint63.of_Z (- z)))
  else PrimFloat.of_uint63 (Uint63.of_Z z).

(** [Math.round]: the nearest integer, a tie going up.  The scales only round
    finite numbers; an infinity or NaN, which they cannot produce, is mapped
    to 0 here. *)
Definition Math_round (x : number) : Z :=
  match FloatOps.Prim2SF x with
  | SpecFloat.S754_finite s m e =>
      let v := if s then Z.neg m else Z.pos m in
      if 0 <=? e then v * 2 ^ e
      else (2 * v + 2 ^ (- e)) / 2 ^ (1 - e)
  | _ => 0
  end.

(** [Math.round(c1 + (c2 - c1) * t)] *)
Definition channel (c1 c2 : Z) (t : number) : Z :=
  Math_round (PrimFloat.add (numberOfZ c1)
                            (PrimFloat.mul (numberOfZ (c2 - c1)) t)).

Definition rgb (r g b : Z) : string :=
  ("rgb(" ++ showZ r ++ ", " ++ showZ g ++ ", " ++ showZ b ++ ")")%string.

Definition colorScale (lo hi : Z * Z * Z) (t : number) : string :=
  let '(r1, g1, b1) := lo in
  let '(r2, g2, b2) := hi in
  rgb (channel r1 r2 t) (channel g1 g2 t) (channel b1 b2 t).

Definition sectionColorScale : number -> string :=
  colorScale (0x9B, 0x96, 0xC9) (0x41, 0x37, 0x8F).
Definition entityColorScale : number -> string :=
  colorScale (0xF9, 0xD9, 0x9B) (0xF0, 0xA7, 0x34).
Definition conceptColorScale : number -> string :=
  colorScale (0xE8, 0xB3, 0xE3) (0x9C, 0x33, 0x91).

(** [v / maxVal] *)
Definition strength (maxVal v : Z) : number :=
  PrimFloat.div (numberOfZ v) (numberOfZ maxVal).

Definition colorFor (ty : string) (t : number) : string :=
  if String.eqb ty "section" || String.eqb ty "index" then sectionColorScale t
  else if String.eqb ty "entity" then entityColorScale t
  else if String.eqb ty "concept" then conceptColorScale t
  else "#AFBBE8".

(** ** buildNetwork *)

(** [(x || dflt)] for an optional number [x] *)
Definition orNum (x : option Z) (dflt : Z) : Z :=
  match x with
  | Some d => if d =? 0 then dflt else d
  | None => dflt
  end.

Definition indexed {A : Type} (l : list A) : list (nat * A) :=
  combine (seq 0 (length l)) l.

(** The map filled by [this.allNodes.forEach(n => { if (ids.has(n.id))
    map.set(n.id, n) })]; the source builds [candidateNodeMap] and
    [selectedNodeMap] this way. *)
Definition nodeMapStep (ids : JsSet) (m : JsMap NodeRef) (rn : nat * GraphNode)
  : JsMap NodeRef :=
  if set_has ids (id (snd rn)) then map_set (id (snd rn)) (fst rn) m else m.

Definition nodeMap (store : list GraphNode) (ids : JsSet) : JsMap NodeRef :=
  fold_left (nodeMapStep ids) (indexed store) [].

(** [allNodes.find(n => n.id === i)] *)
Definition findNode (store : list GraphNode) (i : string) : option GraphNode :=
  find (fun n => String.eqb (id n) i) store.

(** Step 2: the type filter on the seeds. *)
Definition seedsAfterTypeFilter (store : list GraphNode)
  (types : list string) (seeds : JsSet) : JsSet :=
  newSet
    (filter
       (fun i => match findNode store i with
                 | Some node => includesStr types (node_type node)
                 | None => false
                 end)
       seeds).

Definition filterSeeds (store : list GraphNode) (types : list string)
  (seeds candidates : JsSet) : JsSet :=
  let kept := seedsAfterTypeFilter store types seeds in
  newSet (filter (fun i => set_has kept i || negb (set_has seeds i))
                      candidates).

Definition edgeTypeMatch (st : NetworkBuilderState) (link : GraphLink) : bool :=
  (length (allowedEdgeTypes st) =? 0)%nat
  || includesStr (allowedEdgeTypes st) (edge_type link).

(** Step 4 and the link filter of step 7: both ends are keys of [m]. *)
Definition bothIn (m : JsMap NodeRef) (link : GraphLink) : bool :=
  map_has m (sourceId link) && map_has m (targetId link).

Definition candidateLinksOf (this : NetworkBuilder) (st : NetworkBuilderState)
  (candidateNodeMap : JsMap NodeRef) : list GraphLink :=
  filter (fun link => edgeTypeMatch st link && bothIn candidateNodeMap link)
              (allLinks this).

Definition nodesWithEdgesOf (candidateLinks : list GraphLink) : JsSet :=
  fold_left (fun s link => set_add (targetId link) (set_add (sourceId link) s))
            candidateLinks [].

(** [refs.filter(n => keep(n.id)).map(n => n.id)] read through the store *)
Definition idsWhere (store : list GraphNode) (keep : string -> bool)
  (refs : list NodeRef) : list string :=
  flat_map (fun r => match store !! r with
                     | Some n => if keep (id n) then [id n] else []
                     | None => []
                     end) refs.

Definition connectedNodeIdsOf (store : list GraphNode)
  (candidateNodes : list NodeRef) (candidateLinks : list GraphLink) : JsSet :=
  newSet (idsWhere store (set_has (nodesWithEdgesOf candidateLinks)) candidateNodes).

(** [m.set(k, (m.get(k) || 0) + 1)] *)
Definition bump (k : string) (m : JsMap Z) : JsMap Z :=
  map_set k (orNum (map_get m k) 0 + 1) m.

Definition countDegrees (ls : list GraphLink) : JsMap Z :=
  fold_left (fun m link => bump (targetId link) (bump (sourceId link) m)) ls [].

(** Step 6, subgraph mode *)
Definition topBySubgraphDegree (candidateLinks : list GraphLink)
  (connectedNodeIds : JsSet) (maxNodes : Z) : list string :=
  let nodeDegrees := countDegrees candidateLinks in
  slice0 maxNodes
    (sortDesc (fun i => orNum (map_get nodeDegrees i) 0)
       (filter (map_has nodeDegrees) connectedNodeIds)).

Definition finalNodeIdsOf (this : NetworkBuilder) (st : NetworkBuilderState)
  (mode : RankingMode) (truncated : bool) (candidateLinks : list GraphLink)
  (connectedNodeIds : JsSet) : JsSet :=
  if truncated then
    match mode with
    | subgraph =>
        newSet (topBySubgraphDegree candidateLinks connectedNodeIds
                                    (maxTotalNodes st))
    | global =>
        newSet (selectTopNodesByDegree this connectedNodeIds (maxTotalNodes st))
    end
  else connectedNodeIds.

(** Step 8, first loop: [node.val = nodeDegree.get(node.id) || 1;
    node.totalVal = node.val]. *)
Definition withVal (v : Z) (n : GraphNode) : GraphNode :=
  mkNode (id n) (name n) (Some v) (Some v) (color n) (baseColor n)
         (node_type n) (title n) (display_label n) (properties n)
         (full_name n) (text n) (section_num n) (section_heading n)
         (section_text n) (title_num n) (other n).

(** Step 8, second loop: [node.color = color; node.baseColor = color]. *)
Definition withColor (c : string) (n : GraphNode) : GraphNode :=
  mkNode (id n) (name n) (val n) (totalVal n) (Some c) (Some c)
         (node_type n) (title n) (display_label n) (properties n)
         (full_name n) (text n) (section_num n) (section_heading n)
         (section_text n) (title_num n) (other n).

Definition setVal (nodeDegree : JsMap Z) (store : list GraphNode) (r : NodeRef)
  : list GraphNode :=
  match store !! r with
  | Some n => <[r := withVal (orNum (map_get nodeDegree (id n)) 1) n]> store
  | None => store
  end.

(** [nodes.map(n => n.val)]; every node was given a [val] by the loop before. *)
Definition valsOf (store : list GraphNode) (refs : list NodeRef) : list Z :=
  flat_map (fun r => match store !! r with
                     | Some n => match val n with Some v => [v] | None => [] end
                     | None => []
                     end) refs.

(** [Math.max(...vals, 1)] *)
Definition maxOf (vals : list Z) : Z := fold_right Z.max 1 vals.

Definition setColor (maxVal : Z) (store : list GraphNode) (r : NodeRef)
  : list GraphNode :=
  match store !! r with
  | Some n =>
      match val n with
      | Some v => <[r := withColor (colorFor (node_type n) (strength maxVal v)) n]> store
      | None => store
      end
  | None => store
  end.

Definition annotate (store : list GraphNode) (refs : list NodeRef)
  (ls : list GraphLink) : list GraphNode :=
  let nodeDegree := countDegrees ls in
  let store1 := fold_left (setVal nodeDegree) refs store in
  let maxVal := maxOf (valsOf store1 refs) in
  fold_left (setColor maxVal) refs store1.

(** Step 2: the candidates after the type filter on the seeds. *)
Definition candidateNodeIdsOf (store : list GraphNode) (st : NetworkBuilderState)
  (searched : bool) (seeds candidates0 : JsSet) : JsSet :=
  if searched && (0 <? length (allowedNodeTypes st))%nat
  then filterSeeds store (allowedNodeTypes st) seeds candidates0
  else candidates0.

(** Steps 2 to 8, from the seeds and candidates of step 1. *)
Definition assemble (this : NetworkBuilder) (st : NetworkBuilderState)
  (mode : RankingMode) (searched : bool) (seeds candidates0 : JsSet)
  : NetworkBuilder * FilteredGraph :=
  let store := allNodes this in
  let candidateNodeIds := candidateNodeIdsOf store st searched seeds candidates0 in
  let candidateNodeMap := nodeMap store candidateNodeIds in
  let candidateNodes := map_values candidateNodeMap in
  let candidateLinks := candidateLinksOf this st candidateNodeMap in
  let connectedNodeIds := connectedNodeIdsOf store candidateNodes candidateLinks in
  let totalMatches := Z.of_nat (length connectedNodeIds) in
  let truncated := totalMatches >? maxTotalNodes st in
  let finalNodeIds :=
    finalNodeIdsOf this st mode truncated candidateLinks connectedNodeIds in
  let selectedNodeMap := nodeMap store finalNodeIds in
  let nodes := map_values selectedNodeMap in
  let links := filter (bothIn selectedNodeMap) candidateLinks in
  (mkBuilder (annotate store nodes links) (allLinks this) (adjacencyMap this),
   mkGraph nodes links truncated totalMatches).

Definition buildNetwork (this : NetworkBuilder) (st : NetworkBuilderState)
  (searchLogic : Logic) (nodeRankingMode : RankingMode)
  : NetworkBuilder * FilteredGraph :=
  if (0 <? length (searchTerms st))%nat && (0 <? length (searchFields st))%nat
  then
    let seeds := searchNodes this (searchTerms st) (searchFields st) searchLogic in
    if (length seeds =? 0)%nat then (this, mkGraph [] [] false 0)
    else
      let candidates :=
        if 0 <? expansionDepth st
        then expandFromSeeds this seeds (expansionDepth st)
                             (maxNodesPerExpansion st) (allowedEdgeTypes st)
        else newSet seeds in
      assemble this st nodeRankingMode true seeds candidates
  else
    assemble this st nodeRankingMode false [] (newSet (map id (allNodes this))).

(** The connected candidate set: the value of [connectedNodeIds] after step 5
    for the given seeds and candidates. *)
Definition connectedAfter (this : NetworkBuilder) (st : NetworkBuilderState)
  (searched : bool) (seeds candidates0 : JsSet) : JsSet :=
  let store := allNodes this in
  let candidateNodeMap :=
    nodeMap store (candidateNodeIdsOf store st searched seeds candidates0) in
  connectedNodeIdsOf store (map_values candidateNodeMap)
                     (candidateLinksOf this st candidateNodeMap).

(** The connected candidate set of a query; a search that matches nothing
    ends the query before any candidate is formed. *)
Definition connectedCandidates (this : NetworkBuilder) (st : NetworkBuilderState)
  (searchLogic : Logic) : JsSet :=
  if (0 <? length (searchTerms st))%nat && (0 <? length (searchFields st))%nat
  then
    let seeds := searchNodes this (searchTerms st) (searchFields st) searchLogic in
    if (length seeds =? 0)%nat then []
    else
      let candidates :=
        if 0 <? expansionDepth st
        then expandFromSeeds this seeds (expansionDepth st)
                             (maxNodesPerExpansion st) (allowedEdgeTypes st)
        else newSet seeds in
      connectedAfter this st true seeds candidates
  else
    connectedAfter this st false [] (newSet (map id (allNodes this))).

(** The node objects a result refers to, as the store [this] holds them. *)
Definition nodesAt (store : list GraphNode) (refs : list NodeRef)
  : list GraphNode :=
  flat_map (fun r => match store !! r with Some n => [n] | None => [] end) refs.

Definition nodesOf (this : NetworkBuilder) (g : FilteredGraph) : list GraphNode :=
  nodesAt (allNodes this) (nodes g).

(** ** Vocabulary of the properties *)

(** [xs.forEach(x => s.add(x))] *)
Definition addAll (xs : list string) (s : JsSet) : JsSet :=
  fold_left (fun s x => set_add x s) xs s.

(** [b] is [a] with members added at the end. *)
Definition extends (a b : JsSet) : Prop := exists t, b = a ++ t.

(** What a layer preserves of the [expanded] set it started from. *)
Definition grown (e : JsSet) (st : JsSet * JsSet) : Prop :=
  extends e (fst st) /\ (NoDup e -> NoDup (fst st)).

(** [k] is the source or the target of [l]. *)
Definition isEndOf (k : string) (l : GraphLink) : bool :=
  String.eqb k (sourceId l) || String.eqb k (targetId l).

(** Two filter states that agree on every field but [allowedTitles] and
    [allowedSections]. *)
Definition sameButTitlesSections (a b : NetworkBuilderState) : Prop :=
  searchTerms a = searchTerms b
  /\ searchFields a = searchFields b
  /\ allowedNodeTypes a = allowedNodeTypes b
  /\ allowedEdgeTypes a = allowedEdgeTypes b
  /\ seedNodeIds a = seedNodeIds b
  /\ expansionDepth a = expansionDepth b
  /\ maxNodesPerExpansion a = maxNodesPerExpansion b
  /\ maxTotalNodes a = maxTotalNodes b.

(** The number of link ends at [k]: the degree of [k] within [ls]. *)
Definition localDegree (ls : list GraphLink) (k : string) : Z :=
  Z.of_nat (length (filter (fun l => String.eqb k (sourceId l)) ls)
            + length (filter (fun l => String.eqb k (targetId l)) ls)).

(** The degree as the first loop of step 8 stores it: 1 in place of 0. *)
Definition displayDegree (ls : list GraphLink) (k : string) : Z :=
  if localDegree ls k =? 0 then 1 else localDegree ls k.

(** A write to the node object at [r]: [store[r] = f(store[r])]. *)
Definition modifyAt (f : GraphNode -> GraphNode) (store : list GraphNode)
  (r : NodeRef) : list GraphNode :=
  match store !! r with
  | Some n => <[r := f n]> store
  | None => store
  end.

(** What the two loops of step 8 do to one node object. *)
Definition valAnnot (nodeDegree : JsMap Z) (n : GraphNode) : GraphNode :=
  withVal (orNum (map_get nodeDegree (id n)) 1) n.

Definition colorAnnot (maxVal : Z) (n : GraphNode) : GraphNode :=
  match val n with
  | Some v => withColor (colorFor (node_type n) (strength maxVal v)) n
  | None => n
  end.

(** The [val] the first loop stores for a node. *)
Definition storedVal (nodeDegree : JsMap Z) (n : GraphNode) : Z :=
  orNum (map_get nodeDegree (id n)) 1.

(** The node object [annotate] leaves where [n] was. *)
Definition annotated (nodeDegree : JsMap Z) (maxVal : Z) (n : GraphNode)
  : GraphNode :=
  withColor (colorFor (node_type n) (strength maxVal (storedVal nodeDegree n)))
            (withVal (storedVal nodeDegree n) n).

(** ** Example graphs *)

(** A node with an id, a name equal to the id, a type and nothing else. *)
Definition exampleNode (i ty : string) : GraphNode :=
  mkNode i i None None None None ty None None None None None VUndefined
         None None None [].

(** A reference link between two ids. *)
Definition exampleLink (a b : string) : GraphLink :=
  mkLink (EndId a) (EndId b) "reference" "references".

(** One node whose [properties.text] is "Gross income defined". *)
Definition incomeNode : GraphNode :=
  mkNode "n1" "Section 61" None None None None "section" None None
         (Some [("text", VString "Gross income defined")])
         None None VUndefined None None None [].

Definition incomeGraph : NetworkBuilder := constructor [incomeNode] [].

(** Section 61 of title 26, and an entity without title or section. *)
Definition section61 : GraphNode :=
  mkNode "s61" "26 U.S.C. 61" None None None None "section" (Some "26") None
         None None None (VString "61") None None (Some 26) [].

Definition taxpayer : GraphNode := exampleNode "e1" "entity".

Definition sectionGraph : NetworkBuilder := constructor [section61; taxpayer] [].

(** The star of the specification: A is linked to B, C, D and E. *)
Definition starGraph : NetworkBuilder :=
  constructor
    [exampleNode "A" "section"; exampleNode "B" "entity";
     exampleNode "C" "concept"; exampleNode "D" "index"; exampleNode "E" "other"]
    [exampleLink "A" "B"; exampleLink "A" "C"; exampleLink "A" "D";
     exampleLink "A" "E"].

(** The filter state with no search and no filter, capped at [cap] nodes. *)
Definition showAll (cap : Z) : NetworkBuilderState :=
  mkState [] [] [] [] [] [] [] 0 0 cap.

(** The object of A after an uncapped query on the star. *)
Definition starA : GraphNode :=
  mkNode "A" "A" (Some 4) (Some 4) (Some "rgb(65, 55, 143)")
         (Some "rgb(65, 55, 143)") "section" None None None None None
         VUndefined None None None [].

(** A-B and C-D, with and without two links from C and D to an id "X" that
    is no node. *)
Definition fourNodes : list GraphNode :=
  [exampleNode "A" "entity"; exampleNode "B" "entity";
   exampleNode "C" "entity"; exampleNode "D" "entity"].

Definition cleanGraph : NetworkBuilder :=
  constructor fourNodes [exampleLink "A" "B"; exampleLink "C" "D"].

Definition danglingGraph : NetworkBuilder :=
  constructor fourNodes
    [exampleLink "A" "B"; exampleLink "C" "D";
     exampleLink "C" "X"; exampleLink "D" "X"].

(** ** Vocabulary of the further properties *)

(** The entries the constructor pushes on the list of [k] for one link: the
    target under the source, then the source under the target. *)
Definition entriesOf (k : string) (l : GraphLink) : list Neighbor :=
  (if String.eqb k (sourceId l) then [mkNeighbor (targetId l) (edge_type l)] else [])
  ++ (if String.eqb k (targetId l) then [mkNeighbor (sourceId l) (edge_type l)] else []).

(** [m.get(k) || []] *)
Definition getOrEmpty (m : JsMap (list Neighbor)) (k : string) : list Neighbor :=
  match map_get m k with
  | Some a => a
  | None => []
  end.

(** The edge types a traversal may follow: all of them for the empty list. *)
Definition edgeAllowed (allowed : list string) (n : Neighbor) : bool :=
  (length allowed =? 0)%nat || includesStr allowed (edgeType n).

(** [x] is at most [d] allowed adjacency steps away from a seed. *)
Inductive within (this : NetworkBuilder) (allowed : list string) (seeds : JsSet)
  : nat -> string -> Prop :=
  | within_seed (d : nat) (x : string) :
      In x seeds -> within this allowed seeds d x
  | within_step (d : nat) (y : string) (n : Neighbor) :
      within this allowed seeds d y ->
      In n (neighborsOf this y) ->
      edgeAllowed allowed n = true ->
      within this allowed seeds (S d) (neighborId n).

(** The degree [selectTopNodesByDegree] ranks by. *)
Definition globalDegree (this : NetworkBuilder) (k : string) : Z :=
  Z.of_nat (length (neighborsOf this k)).

(** The sum of a number over a list. *)
Definition sumOf {A : Type} (f : A -> Z) (l : list A) : Z :=
  fold_right (fun x acc => f x + acc) 0 l.

(** [x] stands at an earlier position of [l] than [y]. *)
Fixpoint before {A : Type} (l : list A) (x y : A) : Prop :=
  match l with
  | [] => False
  | a :: r => (a = x /\ In y r) \/ before r x y
  end.

(** Every member of a descending list is at least as large as all that
    follow it. *)
Definition descending {A : Type} (key : A -> Z) (l : list A) : Prop :=
  forall l1 l2 x y, l = l1 ++ l2 -> In x l1 -> In y l2 -> key y <= key x.

(** The candidate map and the final node ids of steps 3 and 6, for the given
    seeds and candidates. *)
Definition candidateMapAfter (this : NetworkBuilder) (st : NetworkBuilderState)
  (searched : bool) (seeds candidates0 : JsSet) : JsMap NodeRef :=
  nodeMap (allNodes this)
          (candidateNodeIdsOf (allNodes this) st searched seeds candidates0).

Definition finalAfter (this : NetworkBuilder) (st : NetworkBuilderState)
  (mode : RankingMode) (searched : bool) (seeds candidates0 : JsSet) : JsSet :=
  let connected := connectedAfter this st searched seeds candidates0 in
  finalNodeIdsOf this st mode
    (Z.of_nat (length connected) >? maxTotalNodes st)
    (candidateLinksOf this st (candidateMapAfter this st searched seeds candidates0))
    connected.

(** [1 + m + m^2 + ... + m^d]: how many ids [d] layers can reach from one
    seed when every node hands on at most [m] neighbours. *)
Fixpoint geometric (m d : nat) : nat :=
  match d with
  | O => 1
  | S d' => 1 + m * geometric m d'
  end.

(** * Properties *)

(** ** Sets, maps and folds *)

Lemma fold_left_invariant {A B : Type} (f : A -> B -> A) (P : A -> Prop)
  (l : list B) (a : A) :
  P a -> (forall a' x, In x l -> P a' -> P (f a' x)) -> P (fold_left f l a).
Proof.
  revert a. induction l as [|x l IH]; intros a Ha Hstep; simpl.
  - exact Ha.
  - apply IH.
    + apply Hstep; [left; reflexivity | exact Ha].
    + intros a' y Hy. apply Hstep. right. exact Hy.
Qed.

Lemma set_has_In (s : JsSet) (x : string) : set_has s x = true <-> In x s.
Proof.
  unfold set_has. rewrite existsb_exists. split.
  - intros [y [Hy Heq]]. apply String.eqb_eq in Heq. subst. exact Hy.
  - intros H. exists x. split; [exact H | apply String.eqb_refl].
Qed.

Lemma set_has_false (s : JsSet) (x : string) : set_has s x = false <-> ~ In x s.
Proof.
  rewrite <- set_has_In. destruct (set_has s x); split; congruence.
Qed.

Lemma set_add_In (x y : string) (s : JsSet) :
  In y (set_add x s) <-> y = x \/ In y s.
Proof.
  unfold set_add. destruct (set_has s x) eqn:E.
  - apply set_has_In in E. split; [tauto | intros [->|H]; assumption].
  - rewrite in_app_iff. simpl. split; intros H; intuition congruence.
Qed.

Lemma set_add_NoDup (x : string) (s : JsSet) : NoDup s -> NoDup (set_add x s).
Proof.
  intros H. unfold set_add. destruct (set_has s x) eqn:E; [exact H|].
  apply set_has_false in E.
  apply NoDup_app; [exact H | repeat constructor; intros [] | ].
  intros y Hy [<-|[]]. exact (E Hy).
Qed.

Lemma set_add_extends (x : string) (s : JsSet) : exists t, set_add x s = s ++ t.
Proof.
  unfold set_add. destruct (set_has s x).
  - exists []. symmetry. apply app_nil_r.
  - exists [x]. reflexivity.
Qed.

Lemma addAll_In (xs : list string) (s : JsSet) (y : string) :
  In y (addAll xs s) <-> In y s \/ In y xs.
Proof.
  unfold addAll. revert s. induction xs as [|x xs IH]; intros s; simpl.
  - tauto.
  - rewrite IH, set_add_In. intuition congruence.
Qed.

Lemma addAll_NoDup (xs : list string) (s : JsSet) : NoDup s -> NoDup (addAll xs s).
Proof.
  unfold addAll. revert s. induction xs as [|x xs IH]; intros s H; simpl.
  - exact H.
  - apply IH. apply set_add_NoDup. exact H.
Qed.

Lemma addAll_fresh (xs : list string) (s : JsSet) :
  NoDup (s ++ xs) -> addAll xs s = s ++ xs.
Proof.
  unfold addAll. revert s. induction xs as [|x xs IH]; intros s H; simpl.
  - symmetry. apply app_nil_r.
  - assert (Hx : set_has s x = false).
    { apply set_has_false. intros Hin.
      apply NoDup_remove_2 in H. apply H. apply in_or_app. left. exact Hin. }
    unfold set_add at 2. rewrite Hx.
    rewrite IH; rewrite <- app_assoc; [reflexivity | exact H].
Qed.

Lemma newSet_In (xs : list string) (y : string) : In y (newSet xs) <-> In y xs.
Proof. unfold newSet. rewrite (addAll_In xs [] y). simpl. tauto. Qed.

Lemma newSet_NoDup (xs : list string) : NoDup (newSet xs).
Proof. apply (addAll_NoDup xs []). constructor. Qed.

Lemma newSet_id (xs : list string) : NoDup xs -> newSet xs = xs.
Proof. intros H. apply (addAll_fresh xs []). exact H. Qed.

(** The shape shared by [searchNodes] and [filterByAttributes]: the ids of
    the nodes that pass a test, collected into a set. *)
Lemma collect_ids (P : GraphNode -> bool) (l : list GraphNode) (s : JsSet) :
  fold_left (fun acc n => if P n then set_add (id n) acc else acc) l s
  = addAll (map id (filter P l)) s.
Proof.
  unfold addAll. revert s. induction l as [|n l IH]; intros s; simpl.
  - reflexivity.
  - destruct (P n); simpl; apply IH.
Qed.

Lemma filter_all {A : Type} (P : A -> bool) (l : list A) :
  (forall x, In x l -> P x = true) -> filter P l = l.
Proof.
  induction l as [|x l IH]; intros H; simpl.
  - reflexivity.
  - rewrite (H x (or_introl eq_refl)). f_equal. apply IH.
    intros y Hy. apply H. right. exact Hy.
Qed.

Lemma filter_none {A : Type} (P : A -> bool) (l : list A) :
  (forall x, In x l -> P x = false) -> filter P l = [].
Proof.
  induction l as [|x l IH]; intros H; simpl.
  - reflexivity.
  - rewrite (H x (or_introl eq_refl)). apply IH.
    intros y Hy. apply H. right. exact Hy.
Qed.

(** ** searchNodes *)

Lemma searchNodes_collect (this : NetworkBuilder) (terms fields : list string)
  (logic : Logic) :
  searchNodes this terms fields logic
  = newSet (map id (filter
      (fun node => nodeMatches logic (map (fun t => trim (toLowerCase t)) terms)
                               (searchableValues node fields))
      (allNodes this))).
Proof. unfold searchNodes. apply collect_ids. Qed.

Lemma existsb_all_false {A : Type} (f : A -> bool) (l : list A) :
  (forall x, f x = false) -> existsb f l = false.
Proof.
  intros H. induction l as [|x l IH]; simpl; [reflexivity|].
  rewrite H. exact IH.
Qed.

Lemma forallb_existsb {A : Type} (f : A -> bool) (l : list A) :
  l <> [] -> forallb f l = true -> existsb f l = true.
Proof.
  destruct l as [|x l]; [congruence|]. simpl. intros _ H.
  apply andb_true_iff in H. destruct H as [H _]. rewrite H. reflexivity.
Qed.

Lemma nodeMatches_no_values (logic : Logic) (t : string) (terms : list string) :
  nodeMatches logic (t :: terms) [] = false.
Proof. destruct logic; simpl; [reflexivity | apply existsb_all_false; reflexivity]. Qed.

Lemma nodeMatches_AND_OR (terms values : list string) :
  terms <> [] ->
  nodeMatches AND terms values = true -> nodeMatches OR terms values = true.
Proof. intros Hne H. simpl in *. apply forallb_existsb; assumption. Qed.

(** C3, as stated, fails: under AND logic an empty term list matches every
    node, because [every] over no terms holds. *)
Lemma searchNodes_AND_no_terms_matches_all :
  searchNodes incomeGraph [] ["text"] AND = ["n1"]
  /\ searchNodes incomeGraph [] [] AND = ["n1"].
Proof. split; reflexivity. Qed.

(** C3 (amended): under OR logic an empty term list or an empty field list
    gives the empty set; under AND logic an empty field list with at least one
    term gives the empty set, and an empty term list gives the ids of all
    nodes. *)
Theorem searchNodes_empty_input (this : NetworkBuilder)
  (t : string) (terms fields : list string) :
  searchNodes this [] fields OR = []
  /\ searchNodes this terms [] OR = []
  /\ searchNodes this (t :: terms) [] AND = []
  /\ searchNodes this [] fields AND = newSet (map id (allNodes this)).
Proof.
  repeat split; rewrite searchNodes_collect.
  - rewrite filter_none; reflexivity.
  - rewrite filter_none; [reflexivity|]. intros n _. simpl.
    apply existsb_all_false. reflexivity.
  - rewrite filter_none; [reflexivity|]. intros n _.
    apply (nodeMatches_no_values AND).
  - rewrite filter_all; reflexivity.
Qed.

(** C7, as stated, fails for the empty term list: AND matches every node and
    OR matches none. *)
Lemma searchNodes_AND_not_within_OR :
  In "n1" (searchNodes incomeGraph [] ["text"] AND)
  /\ searchNodes incomeGraph [] ["text"] OR = [].
Proof. split; [left; reflexivity | reflexivity]. Qed.

(** C7 (amended): for a non-empty term list and any field list, every node
    matched under AND logic is matched under OR logic. *)
Theorem searchNodes_AND_subset_OR (this : NetworkBuilder)
  (terms fields : list string) (x : string) :
  terms <> [] ->
  In x (searchNodes this terms fields AND) ->
  In x (searchNodes this terms fields OR).
Proof.
  intros Hne. rewrite !searchNodes_collect, !newSet_In, !in_map_iff.
  intros [n [Hid Hn]]. exists n. split; [exact Hid|].
  apply filter_In in Hn. destruct Hn as [Hin Hm].
  apply filter_In. split; [exact Hin|].
  apply nodeMatches_AND_OR; [|exact Hm].
  destruct terms; [congruence | discriminate].
Qed.

Lemma searchNodes_AND_subset_OR_witness :
  In "n1" (searchNodes incomeGraph ["Income"; "GROSS "] ["text"] OR).
Proof.
  apply (searchNodes_AND_subset_OR incomeGraph ["Income"; "GROSS "] ["text"] "n1").
  - discriminate.
  - left. reflexivity.
Defined.

(** The scenarios of the specification on [incomeGraph]. *)
Example search_income_OR : searchNodes incomeGraph ["income"] ["text"] OR = ["n1"].
Proof. reflexivity. Qed.

Example search_income_gift_AND :
  searchNodes incomeGraph ["income"; "gift"] ["text"] AND = [].
Proof. reflexivity. Qed.

(** ** filterByAttributes *)

Lemma filterByAttributes_collect (this : NetworkBuilder)
  (types : list string) (titles : list Z) (sections : list string) :
  filterByAttributes this types titles sections
  = newSet (map id (filter (attributesMatch types titles sections)
                           (allNodes this))).
Proof. unfold filterByAttributes. apply collect_ids. Qed.

(** With both lists given, the match is the title test or the section test. *)
Lemma attributesMatch_both (z : Z) (titles : list Z) (s : string)
  (sections : list string) (node : GraphNode) :
  attributesMatch [] (z :: titles) (s :: sections) node
  = titlePredicate (z :: titles) node || sectionPredicate (s :: sections) node.
Proof. reflexivity. Qed.

(** With only one of the two lists given, the guard of the other one lets
    every node through. *)
Lemma attributesMatch_sections_only (s : string) (sections : list string)
  (node : GraphNode) :
  attributesMatch [] [] (s :: sections) node = true.
Proof. reflexivity. Qed.

Lemma attributesMatch_titles_only (z : Z) (titles : list Z) (node : GraphNode) :
  attributesMatch [] (z :: titles) [] node = true.
Proof.
  unfold attributesMatch, sectionMatch. simpl. apply orb_true_r.
Qed.

Lemma filterByAttributes_sections_only (this : NetworkBuilder) (s : string)
  (sections : list string) :
  filterByAttributes this [] [] (s :: sections) = newSet (map id (allNodes this)).
Proof.
  rewrite filterByAttributes_collect, filter_all; [reflexivity|].
  intros n _. apply attributesMatch_sections_only.
Qed.

(** C2 at the input [nodeTypes = []], [titles = []], [sections = ["61"]]: the
    entity [e1] has no [section_num] and fails both the title and the section
    test, and is matched all the same. *)
Theorem filterByAttributes_sections_only_matches_all :
  filterByAttributes sectionGraph [] [] ["61"] = ["s61"; "e1"]
  /\ sectionPredicate ["61"] taxpayer = false
  /\ titlePredicate [] taxpayer = false
  /\ sectionPredicate ["61"] section61 = true.
Proof. repeat split; reflexivity. Qed.

(** With both lists given the same node is left out. *)
Example filterByAttributes_both_given :
  filterByAttributes sectionGraph [] [26] ["61"] = ["s61"]
  /\ filterByAttributes sectionGraph [] [27] ["62"] = [].
Proof. split; reflexivity. Qed.

(** ** buildNetwork never reads the title and section filters *)

(** C8: two filter states that agree on everything but [allowedTitles] and
    [allowedSections] give the same result (and leave the same store). *)
Theorem buildNetwork_ignores_titles_sections (this : NetworkBuilder)
  (a b : NetworkBuilderState) (logic : Logic) (mode : RankingMode) :
  sameButTitlesSections a b ->
  buildNetwork this a logic mode = buildNetwork this b logic mode.
Proof.
  destruct a, b. unfold sameButTitlesSections. simpl.
  intros (-> & -> & -> & -> & -> & -> & -> & ->).
  reflexivity.
Qed.

Lemma buildNetwork_ignores_titles_sections_witness :
  buildNetwork starGraph (mkState ["a"] ["id"] ["section"] [] [26] ["61"] [] 1 0 3)
               OR subgraph
  = buildNetwork starGraph (mkState ["a"] ["id"] ["section"] [] [] [] [] 1 0 3)
                 OR subgraph.
Proof.
  apply buildNetwork_ignores_titles_sections.
  repeat split.
Defined.

(** ** expandFromSeeds *)

Lemma extends_refl (a : JsSet) : extends a a.
Proof. exists []. symmetry. apply app_nil_r. Qed.

Lemma extends_trans (a b c : JsSet) : extends a b -> extends b c -> extends a c.
Proof.
  intros [t ->] [u ->]. exists (t ++ u). symmetry. apply app_assoc.
Qed.

Lemma extends_length (a b : JsSet) : extends a b -> (length a <= length b)%nat.
Proof. intros [t ->]. rewrite length_app. lia. Qed.

Lemma extends_In (a b : JsSet) (x : string) : extends a b -> In x a -> In x b.
Proof. intros [t ->] H. apply in_or_app. left. exact H. Qed.

Lemma discover_extends (st : JsSet * JsSet) (n : Neighbor) :
  extends (fst st) (fst (discover st n)).
Proof.
  destruct st as [expanded nextLayer]. unfold discover.
  destruct (set_has expanded (neighborId n)); simpl.
  - apply extends_refl.
  - apply set_add_extends.
Qed.

Lemma discover_NoDup (st : JsSet * JsSet) (n : Neighbor) :
  NoDup (fst st) -> NoDup (fst (discover st n)).
Proof.
  destruct st as [expanded nextLayer]. unfold discover.
  destruct (set_has expanded (neighborId n)); simpl; [tauto|].
  apply set_add_NoDup.
Qed.

Lemma grown_discover (e : JsSet) (st : JsSet * JsSet) (n : Neighbor) :
  grown e st -> grown e (discover st n).
Proof.
  intros [He Hn]. split.
  - eapply extends_trans; [exact He | apply discover_extends].
  - intros H. apply discover_NoDup. apply Hn. exact H.
Qed.

Lemma grown_visit (this : NetworkBuilder) (maxN : Z) (allowed : list string)
  (e : JsSet) (st : JsSet * JsSet) (nodeId : string) :
  grown e st -> grown e (visit this maxN allowed st nodeId).
Proof.
  intros H. unfold visit. apply fold_left_invariant; [exact H|].
  intros st' n _. apply grown_discover.
Qed.

Lemma grown_layer (this : NetworkBuilder) (maxN : Z) (allowed : list string)
  (e layer : JsSet) :
  grown e (fold_left (visit this maxN allowed) layer (e, [])).
Proof.
  apply fold_left_invariant.
  - split; [apply extends_refl | tauto].
  - intros st' n _. apply grown_visit.
Qed.

Lemma expandLoop_grown (this : NetworkBuilder) (maxN : Z) (allowed : list string)
  (rounds : nat) (e layer : JsSet) :
  grown e (expandLoop this maxN allowed rounds e layer, []).
Proof.
  revert e layer. induction rounds as [|rounds IH]; intros e layer; simpl.
  - split; [apply extends_refl | tauto].
  - pose proof (grown_layer this maxN allowed e layer) as Hl.
    destruct (fold_left (visit this maxN allowed) layer (e, [])) as [e' next].
    destruct (length next =? 0)%nat; [exact Hl|].
    destruct Hl as [He Hn]. destruct (IH e' next) as [He' Hn']. simpl in *.
    split; simpl.
    + eapply extends_trans; eassumption.
    + intros H. apply Hn', Hn, H.
Qed.

(** One more round only adds members. *)
Lemma expandLoop_step (this : NetworkBuilder) (maxN : Z) (allowed : list string)
  (rounds : nat) (e layer : JsSet) :
  extends (expandLoop this maxN allowed rounds e layer)
          (expandLoop this maxN allowed (S rounds) e layer).
Proof.
  revert e layer. induction rounds as [|rounds IH]; intros e layer.
  - apply (expandLoop_grown this maxN allowed 1 e layer).
  - change (expandLoop this maxN allowed (S (S rounds)) e layer)
      with (let '(e', next) := fold_left (visit this maxN allowed) layer (e, []) in
            if (length next =? 0)%nat then e'
            else expandLoop this maxN allowed (S rounds) e' next).
    simpl expandLoop at 1.
    destruct (fold_left (visit this maxN allowed) layer (e, [])) as [e' next].
    destruct (length next =? 0)%nat; [apply extends_refl | apply IH].
Qed.

Lemma expandLoop_monotone (this : NetworkBuilder) (maxN : Z)
  (allowed : list string) (m n : nat) (e layer : JsSet) :
  (m <= n)%nat ->
  extends (expandLoop this maxN allowed m e layer)
          (expandLoop this maxN allowed n e layer).
Proof.
  induction 1 as [|n Hle IH].
  - apply extends_refl.
  - eapply extends_trans; [exact IH | apply expandLoop_step].
Qed.

(** C9: for fixed seeds, neighbour cap and edge types, the size of the
    expanded set does not decrease when the depth grows; the result is a set
    (no member twice) that contains the seeds, and at depth 0 it is the seed
    set itself. *)
Theorem expandFromSeeds_monotone (this : NetworkBuilder) (seeds : JsSet)
  (d1 d2 maxN : Z) (allowed : list string) :
  NoDup seeds -> d1 <= d2 ->
  (length (expandFromSeeds this seeds d1 maxN allowed)
   <= length (expandFromSeeds this seeds d2 maxN allowed))%nat
  /\ NoDup (expandFromSeeds this seeds d2 maxN allowed)
  /\ incl seeds (expandFromSeeds this seeds d2 maxN allowed)
  /\ expandFromSeeds this seeds 0 maxN allowed = seeds.
Proof.
  intros Hnd Hle. unfold expandFromSeeds. rewrite (newSet_id seeds Hnd).
  destruct (expandLoop_grown this maxN allowed (Z.to_nat d2) seeds seeds)
    as [He Hn]. simpl in He, Hn.
  repeat split.
  - apply extends_length, expandLoop_monotone. lia.
  - apply Hn, Hnd.
  - intros x Hx. eapply extends_In; eassumption.
Qed.

Lemma expandFromSeeds_monotone_witness :
  (length (expandFromSeeds starGraph ["B"] 1 0 [])
   <= length (expandFromSeeds starGraph ["B"] 2 0 []))%nat
  /\ NoDup (expandFromSeeds starGraph ["B"] 2 0 [])
  /\ incl ["B"] (expandFromSeeds starGraph ["B"] 2 0 [])
  /\ expandFromSeeds starGraph ["B"] 0 0 [] = ["B"].
Proof.
  apply (expandFromSeeds_monotone starGraph ["B"] 1 2 0 []).
  - repeat constructor. intros [].
  - lia.
Defined.

Example expandFromSeeds_star :
  expandFromSeeds starGraph ["B"] 1 0 [] = ["B"; "A"]
  /\ expandFromSeeds starGraph ["B"] 2 0 [] = ["B"; "A"; "C"; "D"; "E"]
  /\ expandFromSeeds starGraph ["B"] 2 1 [] = ["B"; "A"].
Proof. repeat split; reflexivity. Qed.

(** ** Maps *)

Section JsMapFacts.
Context {V : Type}.
Implicit Types (m : JsMap V) (k : string) (v : V).

Lemma map_get_set k v m k' :
  map_get (map_set k v m) k' = if String.eqb k' k then Some v else map_get m k'.
Proof.
  induction m as [|[k0 v0] r IH]; simpl.
  - reflexivity.
  - destruct (String.eqb_spec k k0) as [->|Hne]; simpl.
    + destruct (String.eqb k' k0); reflexivity.
    + rewrite IH. destruct (String.eqb_spec k' k0) as [->|Hne'].
      * destruct (String.eqb_spec k0 k); [congruence | reflexivity].
      * reflexivity.
Qed.

Lemma map_has_set k v m k' :
  map_has (map_set k v m) k' = String.eqb k' k || map_has m k'.
Proof.
  unfold map_has. rewrite map_get_set. destruct (String.eqb k' k); reflexivity.
Qed.

Lemma map_has_keys m k : map_has m k = true <-> In k (map_keys m).
Proof.
  unfold map_has, map_keys. induction m as [|[k0 v0] r IH]; simpl.
  - split; [discriminate | tauto].
  - destruct (String.eqb_spec k k0) as [->|Hne].
    + split; [left; reflexivity | reflexivity].
    + rewrite IH. split; [tauto | intros [H|H]; [congruence | exact H]].
Qed.

Lemma map_set_keys k v m :
  map_keys (map_set k v m)
  = if map_has m k then map_keys m else map_keys m ++ [k].
Proof.
  unfold map_has, map_keys. induction m as [|[k0 v0] r IH]; simpl.
  - reflexivity.
  - destruct (String.eqb_spec k k0) as [->|Hne]; simpl.
    + reflexivity.
    + rewrite IH. destruct (map_get r k); reflexivity.
Qed.

Lemma map_set_keys_NoDup k v m :
  NoDup (map_keys m) -> NoDup (map_keys (map_set k v m)).
Proof.
  intros H. rewrite map_set_keys. destruct (map_has m k) eqn:E; [exact H|].
  apply NoDup_app; [exact H | repeat constructor; intros [] |].
  intros y Hy [<-|[]]. apply map_has_keys in Hy. congruence.
Qed.

Lemma map_get_In m k v : map_get m k = Some v -> In (k, v) m.
Proof.
  induction m as [|[k0 v0] r IH]; simpl; [discriminate|].
  destruct (String.eqb_spec k k0) as [->|Hne].
  - intros [= ->]. left. reflexivity.
  - intros H. right. apply IH, H.
Qed.

Lemma map_In_get m k v :
  NoDup (map_keys m) -> In (k, v) m -> map_get m k = Some v.
Proof.
  unfold map_keys. induction m as [|[k0 v0] r IH]; simpl; [tauto|].
  intros Hnd [[= -> ->]|Hin].
  - rewrite String.eqb_refl. reflexivity.
  - inversion Hnd as [|? ? Hnotin Hnd']; subst.
    destruct (String.eqb_spec k k0) as [->|Hne].
    + exfalso. apply Hnotin. apply in_map_iff. exists (k0, v). split; auto.
    + apply IH; assumption.
Qed.

Lemma map_values_get m v :
  In v (map_values m) -> exists k, In (k, v) m.
Proof.
  unfold map_values. rewrite in_map_iff. intros [[k v'] [Heq Hin]].
  simpl in Heq. subst. exists k. exact Hin.
Qed.

Lemma map_values_length m : length (map_values m) = length (map_keys m).
Proof. unfold map_values, map_keys. rewrite !length_map. reflexivity. Qed.
End JsMapFacts.

(** ** The adjacency index *)

Lemma map_has_push (k : string) (x : Neighbor) (m : JsMap (list Neighbor))
  (k' : string) :
  map_has (map_push k x m) k' = map_has m k'.
Proof.
  unfold map_push. destruct (map_get m k) as [a|] eqn:E; [|reflexivity].
  rewrite map_has_set. destruct (String.eqb_spec k' k) as [->|]; [|reflexivity].
  unfold map_has. rewrite E. reflexivity.
Qed.

Lemma map_has_addLink (adj : JsMap (list Neighbor)) (l : GraphLink) (k : string) :
  map_has (addLink adj l) k = map_has adj k || isEndOf k l.
Proof.
  unfold addLink, isEndOf. rewrite !map_has_push.
  destruct (String.eqb_spec k (sourceId l)) as [Hs|Hs];
    destruct (String.eqb_spec k (targetId l)) as [Ht|Ht];
    try rewrite <- Hs; try rewrite <- Ht;
    repeat match goal with
           | |- context [if ?b then _ else _] => destruct b eqn:?
           end;
    rewrite ?map_has_set, ?String.eqb_refl, ?orb_true_r, ?orb_false_r in *;
    simpl in *; try congruence;
    repeat match goal with
           | H : String.eqb _ _ = true |- _ => apply String.eqb_eq in H
           | H : String.eqb _ _ = false |- _ => apply String.eqb_neq in H
           end;
    try congruence;
    destruct (String.eqb_spec k (sourceId l)); try congruence;
    destruct (String.eqb_spec k (targetId l)); try congruence;
    simpl; rewrite ?orb_false_r; try congruence.
Qed.

Lemma map_has_adjacency (links : list GraphLink) (adj : JsMap (list Neighbor))
  (k : string) :
  map_has (fold_left addLink links adj) k = map_has adj k || existsb (isEndOf k) links.
Proof.
  revert adj. induction links as [|l links IH]; intros adj; simpl.
  - symmetry. apply orb_false_r.
  - rewrite IH, map_has_addLink. symmetry. apply orb_assoc.
Qed.

(** The ids keyed in the index are the ends of the links, whatever the node
    list holds. *)
Lemma adjacency_keys (nodes : list GraphNode) (links : list GraphLink) (k : string) :
  In k (map_keys (adjacencyMap (constructor nodes links)))
  <-> exists l, In l links /\ (k = sourceId l \/ k = targetId l).
Proof.
  rewrite <- map_has_keys. simpl. rewrite map_has_adjacency. simpl.
  rewrite existsb_exists. unfold isEndOf. split.
  - intros [l [Hl He]]. exists l. split; [exact Hl|].
    apply orb_true_iff in He. destruct He as [He|He];
      apply String.eqb_eq in He; auto.
  - intros [l [Hl He]]. exists l. split; [exact Hl|].
    apply orb_true_iff. destruct He as [->| ->]; rewrite String.eqb_refl; auto.
Qed.

(** ** The node maps of buildNetwork *)

Lemma indexed_from_lookup {A : Type} (l : list A) (s i : nat) (x : A) :
  In (i, x) (combine (seq s (length l)) l) ->
  exists j, i = (s + j)%nat /\ l !! j = Some x.
Proof.
  revert s. induction l as [|y l IH]; intros s; simpl; [tauto|].
  intros [[= <- <-]|H].
  - exists 0%nat. split; [lia | reflexivity].
  - destruct (IH (S s) H) as [j [-> Hj]].
    exists (S j). split; [lia | exact Hj].
Qed.

Lemma indexed_lookup {A : Type} (l : list A) (i : nat) (x : A) :
  In (i, x) (indexed l) -> l !! i = Some x.
Proof.
  intros H. destruct (indexed_from_lookup l 0 i x H) as [j [-> Hj]]. exact Hj.
Qed.

Lemma indexed_snd {A : Type} (l : list A) : map snd (indexed l) = l.
Proof.
  unfold indexed. generalize 0%nat.
  induction l as [|y l IH]; intros s; simpl; [reflexivity|].
  f_equal. apply IH.
Qed.

Lemma map_set_In {V : Type} (k : string) (v : V) (m : JsMap V) (k' : string) (v' : V) :
  In (k', v') (map_set k v m) -> (k' = k /\ v' = v) \/ In (k', v') m.
Proof.
  induction m as [|[k0 v0] r IH]; simpl.
  - intros [[= <- <-]|[]]. left. split; reflexivity.
  - destruct (String.eqb_spec k k0) as [->|Hne]; simpl.
    + intros [[= <- <-]|H]; [left; split; reflexivity | right; right; exact H].
    + intros [H|H]; [right; left; exact H|].
      destruct (IH H) as [H'|H']; [left; exact H' | right; right; exact H'].
Qed.

Section NodeMap.
Variable store : list GraphNode.
Variable ids : JsSet.

Lemma nodeMap_sound (k : string) (r : NodeRef) :
  In (k, r) (nodeMap store ids) ->
  exists n, store !! r = Some n /\ id n = k /\ In k ids.
Proof.
  unfold nodeMap. revert k r.
  apply (fold_left_invariant (nodeMapStep ids)
           (fun m => forall k r, In (k, r) m ->
                      exists n, store !! r = Some n /\ id n = k /\ In k ids)).
  - intros k r [].
  - intros m [i n] Hin Hm k r. unfold nodeMapStep. simpl.
    destruct (set_has ids (id n)) eqn:E; [|apply Hm].
    intros H. apply map_set_In in H. destruct H as [[-> ->]|H]; [|apply Hm, H].
    exists n. split; [apply indexed_lookup, Hin|].
    split; [reflexivity | apply set_has_In, E].
Qed.

Lemma nodeMap_keys_NoDup : NoDup (map_keys (nodeMap store ids)).
Proof.
  unfold nodeMap.
  apply (fold_left_invariant (nodeMapStep ids) (fun m => NoDup (map_keys m))).
  - constructor.
  - intros m rn _ Hm. unfold nodeMapStep.
    destruct (set_has ids (id (snd rn))); [|exact Hm].
    apply map_set_keys_NoDup, Hm.
Qed.

Lemma nodeMap_has_from (l : list (nat * GraphNode)) (m : JsMap NodeRef)
  (k : string) :
  map_has (fold_left (nodeMapStep ids) l m) k
  = map_has m k
    || (set_has ids k && existsb (fun n => String.eqb (id n) k) (map snd l)).
Proof.
  revert m. induction l as [|[i n] l IH]; intros m; simpl.
  - rewrite andb_false_r, orb_false_r. reflexivity.
  - rewrite IH. unfold nodeMapStep. simpl.
    destruct (String.eqb_spec (id n) k) as [<-|Hne]; simpl.
    + destruct (set_has ids (id n)); simpl.
      * rewrite map_has_set, String.eqb_refl, orb_true_r. reflexivity.
      * rewrite orb_false_r. reflexivity.
    + destruct (set_has ids (id n)); [|reflexivity].
      rewrite map_has_set.
      destruct (String.eqb_spec k (id n)); [congruence | reflexivity].
Qed.

Lemma nodeMap_has (k : string) :
  map_has (nodeMap store ids) k = true
  <-> In k ids /\ exists n, In n store /\ id n = k.
Proof.
  unfold nodeMap. rewrite nodeMap_has_from, indexed_snd. simpl.
  rewrite andb_true_iff, set_has_In, existsb_exists.
  split; intros [Hk [n [Hn He]]]; (split; [exact Hk|]); exists n;
    (split; [exact Hn|]); [apply String.eqb_eq, He | apply String.eqb_eq, He].
Qed.

(** An entry of the map leads to the node of the store that has the key
    as its id. *)
Lemma nodeMap_values (r : NodeRef) :
  In r (map_values (nodeMap store ids)) ->
  exists n, store !! r = Some n /\ In (id n) ids
            /\ map_get (nodeMap store ids) (id n) = Some r.
Proof.
  intros H. apply map_values_get in H. destruct H as [k Hk].
  destruct (nodeMap_sound k r Hk) as [n [Hr [<- Hin]]].
  exists n. split; [exact Hr|]. split; [exact Hin|].
  apply map_In_get; [apply nodeMap_keys_NoDup | exact Hk].
Qed.

Lemma nodeMap_key_value (k : string) :
  map_has (nodeMap store ids) k = true ->
  exists r n, In r (map_values (nodeMap store ids))
              /\ store !! r = Some n /\ id n = k.
Proof.
  unfold map_has. destruct (map_get (nodeMap store ids) k) as [r|] eqn:E;
    [intros _ | discriminate].
  apply map_get_In in E. destruct (nodeMap_sound k r E) as [n [Hr [Hid _]]].
  exists r, n. split; [|split; assumption].
  unfold map_values. apply in_map_iff. exists (k, r). split; [reflexivity | exact E].
Qed.

(** When the ids are a set of ids of the store, the map has one entry for
    each of them. *)
Lemma nodeMap_size :
  NoDup ids -> (forall k, In k ids -> exists n, In n store /\ id n = k) ->
  length (map_values (nodeMap store ids)) = length ids.
Proof.
  intros Hnd Hsub. rewrite map_values_length.
  apply Permutation_length, NoDup_Permutation;
    [apply nodeMap_keys_NoDup | exact Hnd |].
  intros k. rewrite <- map_has_keys, nodeMap_has. split; [tauto|].
  intros Hk. split; [exact Hk | apply Hsub, Hk].
Qed.
End NodeMap.

(** ** Candidate links, isolates and ranking *)

Lemma isEndOf_true (k : string) (l : GraphLink) :
  isEndOf k l = true <-> k = sourceId l \/ k = targetId l.
Proof.
  unfold isEndOf. rewrite orb_true_iff, !String.eqb_eq. reflexivity.
Qed.

Lemma nodesWithEdges_from (ls : list GraphLink) (s : JsSet) (k : string) :
  In k (fold_left (fun s link => set_add (targetId link) (set_add (sourceId link) s))
                  ls s)
  <-> In k s \/ existsb (isEndOf k) ls = true.
Proof.
  revert s. induction ls as [|l ls IH]; intros s; simpl.
  - split; [tauto | intros [H|H]; [exact H | discriminate]].
  - rewrite IH, !set_add_In, orb_true_iff, isEndOf_true. tauto.
Qed.

Lemma nodesWithEdges_In (ls : list GraphLink) (k : string) :
  In k (nodesWithEdgesOf ls) <-> existsb (isEndOf k) ls = true.
Proof.
  unfold nodesWithEdgesOf. rewrite nodesWithEdges_from. simpl. tauto.
Qed.

Lemma idsWhere_In (store : list GraphNode) (keep : string -> bool)
  (refs : list NodeRef) (k : string) :
  In k (idsWhere store keep refs)
  <-> exists r n, In r refs /\ store !! r = Some n /\ id n = k /\ keep k = true.
Proof.
  unfold idsWhere. rewrite in_flat_map. split.
  - intros [r [Hr Hk]]. destruct (store !! r) as [n|] eqn:E; [|destruct Hk].
    destruct (keep (id n)) eqn:Ek; [|destruct Hk].
    destruct Hk as [<-|[]]. exists r, n. auto.
  - intros [r [n [Hr [E [<- Hk]]]]]. exists r. split; [exact Hr|].
    rewrite E, Hk. left. reflexivity.
Qed.

(** The connected candidates are the keys of the candidate map that end a
    candidate link. *)
Lemma connected_In (store : list GraphNode) (ids : JsSet) (ls : list GraphLink)
  (k : string) :
  In k (connectedNodeIdsOf store (map_values (nodeMap store ids)) ls)
  <-> map_has (nodeMap store ids) k = true /\ existsb (isEndOf k) ls = true.
Proof.
  unfold connectedNodeIdsOf. rewrite newSet_In, idsWhere_In. split.
  - intros [r [n [Hr [E [<- Hk]]]]].
    apply set_has_In, nodesWithEdges_In in Hk. split; [|exact Hk].
    destruct (nodeMap_values store ids r Hr) as [n' [E' [_ Hget]]].
    assert (n' = n) by congruence. subst n'.
    unfold map_has. rewrite Hget. reflexivity.
  - intros [Hhas Hk].
    destruct (nodeMap_key_value store ids k Hhas) as [r [n [Hr [E Hid]]]].
    exists r, n. repeat split; try assumption.
    apply set_has_In, nodesWithEdges_In, Hk.
Qed.

Lemma connected_NoDup (store : list GraphNode) (refs : list NodeRef)
  (ls : list GraphLink) :
  NoDup (connectedNodeIdsOf store refs ls).
Proof. apply newSet_NoDup. Qed.

Lemma map_has_bump (k' : string) (m : JsMap Z) (k : string) :
  map_has (bump k' m) k = String.eqb k k' || map_has m k.
Proof. unfold bump. apply map_has_set. Qed.

Lemma map_has_countDegrees_from (ls : list GraphLink) (m : JsMap Z) (k : string) :
  map_has (fold_left (fun m link => bump (targetId link) (bump (sourceId link) m))
                     ls m) k
  = map_has m k || existsb (isEndOf k) ls.
Proof.
  revert m. induction ls as [|l ls IH]; intros m; simpl.
  - symmetry. apply orb_false_r.
  - rewrite IH, !map_has_bump. unfold isEndOf.
    destruct (String.eqb k (sourceId l)), (String.eqb k (targetId l)),
      (map_has m k); reflexivity.
Qed.

Lemma map_has_countDegrees (ls : list GraphLink) (k : string) :
  map_has (countDegrees ls) k = existsb (isEndOf k) ls.
Proof. unfold countDegrees. rewrite map_has_countDegrees_from. reflexivity. Qed.

Section Ranking.
Context {A : Type} (key : A -> Z).

Lemma insertDesc_Permutation (x : A) (l : list A) :
  Permutation (insertDesc key x l) (x :: l).
Proof.
  induction l as [|y l IH]; simpl; [reflexivity|].
  destruct (key x <? key y); [|reflexivity].
  rewrite IH. apply perm_swap.
Qed.

Lemma sortDesc_Permutation (l : list A) : Permutation (sortDesc key l) l.
Proof.
  induction l as [|x l IH]; simpl; [reflexivity|].
  rewrite insertDesc_Permutation, IH. reflexivity.
Qed.
End Ranking.

Lemma slice0_length {A : Type} (n : Z) (l : list A) :
  0 <= n -> length (slice0 n l) = Nat.min (Z.to_nat n) (length l).
Proof.
  intros H. unfold slice0. destruct (Z.ltb_spec n 0); [lia|].
  apply length_firstn.
Qed.

Lemma slice0_map {A B : Type} (f : A -> B) (n : Z) (l : list A) :
  map f (slice0 n l) = slice0 n (map f l).
Proof.
  unfold slice0. rewrite length_map.
  destruct (n <? 0); symmetry; apply firstn_map.
Qed.

Lemma firstn_In {A : Type} (n : nat) (l : list A) (x : A) :
  In x (firstn n l) -> In x l.
Proof.
  intros H. rewrite <- (firstn_skipn n l). apply in_or_app. left. exact H.
Qed.

Lemma firstn_NoDup {A : Type} (n : nat) (l : list A) :
  NoDup l -> NoDup (firstn n l).
Proof.
  intros H. rewrite <- (firstn_skipn n l) in H.
  apply NoDup_app_remove_r in H. exact H.
Qed.

Lemma slice0_In {A : Type} (n : Z) (l : list A) (x : A) :
  In x (slice0 n l) -> In x l.
Proof. unfold slice0. destruct (n <? 0); apply firstn_In. Qed.

Lemma slice0_NoDup {A : Type} (n : Z) (l : list A) :
  NoDup l -> NoDup (slice0 n l).
Proof. unfold slice0. destruct (n <? 0); apply firstn_NoDup. Qed.

Lemma map_set_keys_add {V : Type} (k : string) (v : V) (m : JsMap V) :
  map_keys (map_set k v m) = set_add k (map_keys m).
Proof.
  rewrite map_set_keys. unfold set_add.
  destruct (map_has m k) eqn:E.
  - apply map_has_keys, set_has_In in E. rewrite E. reflexivity.
  - destruct (set_has (map_keys m) k) eqn:E'; [|reflexivity].
    apply set_has_In, map_has_keys in E'. congruence.
Qed.

Lemma degree_map_keys (f : string -> Z) (ids : list string) (m : JsMap Z) :
  map_keys (fold_left (fun m i => map_set i (f i) m) ids m)
  = addAll ids (map_keys m).
Proof.
  unfold addAll. revert m. induction ids as [|i ids IH]; intros m; simpl.
  - reflexivity.
  - rewrite IH, map_set_keys_add. reflexivity.
Qed.

(** Both ranking modes return the first [maxNodes] members of a
    rearrangement of the connected candidates. *)
Lemma selectTopNodesByDegree_slice (this : NetworkBuilder) (ids : JsSet)
  (maxNodes : Z) :
  NoDup ids ->
  exists p, Permutation p ids
            /\ selectTopNodesByDegree this ids maxNodes = slice0 maxNodes p.
Proof.
  intros Hnd. unfold selectTopNodesByDegree.
  pose (degree := fun i => Z.of_nat (length (neighborsOf this i))).
  pose (nodeDegrees := fold_left (fun m i => map_set i (degree i) m) ids []).
  exists (map fst (sortDesc snd nodeDegrees)). split; [|apply slice0_map].
  rewrite sortDesc_Permutation.
  change (map fst nodeDegrees) with (map_keys nodeDegrees).
  unfold nodeDegrees. rewrite (degree_map_keys degree).
  simpl. rewrite (addAll_fresh ids []); [reflexivity | exact Hnd].
Qed.

Lemma topBySubgraphDegree_slice (ls : list GraphLink) (ids : JsSet) (maxNodes : Z) :
  (forall k, In k ids -> existsb (isEndOf k) ls = true) ->
  exists p, Permutation p ids
            /\ topBySubgraphDegree ls ids maxNodes = slice0 maxNodes p.
Proof.
  intros Hends. unfold topBySubgraphDegree.
  rewrite filter_all.
  - eexists. split; [apply sortDesc_Permutation | reflexivity].
  - intros k Hk. rewrite map_has_countDegrees. apply Hends, Hk.
Qed.

Lemma finalNodeIds_truncated (this : NetworkBuilder) (st : NetworkBuilderState)
  (mode : RankingMode) (ls : list GraphLink) (ids : JsSet) :
  NoDup ids ->
  (forall k, In k ids -> existsb (isEndOf k) ls = true) ->
  exists p, Permutation p ids
            /\ finalNodeIdsOf this st mode true ls ids = slice0 (maxTotalNodes st) p.
Proof.
  intros Hnd Hends. unfold finalNodeIdsOf.
  destruct mode.
  - destruct (selectTopNodesByDegree_slice this ids (maxTotalNodes st) Hnd)
      as [p [Hp ->]].
    exists p. split; [exact Hp|]. apply newSet_id, slice0_NoDup.
    apply (Permutation_NoDup (Permutation_sym Hp) Hnd).
  - destruct (topBySubgraphDegree_slice ls ids (maxTotalNodes st) Hends)
      as [p [Hp ->]].
    exists p. split; [exact Hp|]. apply newSet_id, slice0_NoDup.
    apply (Permutation_NoDup (Permutation_sym Hp) Hnd).
Qed.

(** ** Truncation *)

Lemma connectedAfter_ends (this : NetworkBuilder) (st : NetworkBuilderState)
  (searched : bool) (seeds candidates0 : JsSet) (k : string) :
  In k (connectedAfter this st searched seeds candidates0) ->
  let store := allNodes this in
  let cmap := nodeMap store (candidateNodeIdsOf store st searched seeds candidates0) in
  map_has cmap k = true
  /\ existsb (isEndOf k) (candidateLinksOf this st cmap) = true.
Proof. unfold connectedAfter. intros H. apply connected_In in H. exact H. Qed.

Lemma connectedAfter_in_store (this : NetworkBuilder) (st : NetworkBuilderState)
  (searched : bool) (seeds candidates0 : JsSet) (k : string) :
  In k (connectedAfter this st searched seeds candidates0) ->
  exists n, In n (allNodes this) /\ id n = k.
Proof.
  intros H. apply connectedAfter_ends in H. destruct H as [H _].
  apply nodeMap_has in H. tauto.
Qed.

Lemma assemble_truncation (this : NetworkBuilder) (st : NetworkBuilderState)
  (mode : RankingMode) (searched : bool) (seeds candidates0 : JsSet) :
  0 <= maxTotalNodes st ->
  let g := snd (assemble this st mode searched seeds candidates0) in
  truncated g = (matchedCount g >? maxTotalNodes st)
  /\ matchedCount g
     = Z.of_nat (length (connectedAfter this st searched seeds candidates0))
  /\ (truncated g = true ->
      Z.of_nat (length (nodes g)) = Z.min (maxTotalNodes st) (matchedCount g)).
Proof.
  intros Hcap. unfold assemble. simpl.
  fold (connectedAfter this st searched seeds candidates0).
  set (connected := connectedAfter this st searched seeds candidates0).
  set (cmap := nodeMap (allNodes this)
                 (candidateNodeIdsOf (allNodes this) st searched seeds candidates0)).
  split; [reflexivity|]. split; [reflexivity|].
  intros Htr. rewrite Htr.
  destruct (finalNodeIds_truncated this st mode (candidateLinksOf this st cmap)
              connected) as [p [Hp ->]].
  - apply connected_NoDup.
  - intros k Hk. apply (connectedAfter_ends this st searched seeds candidates0 k Hk).
  - rewrite nodeMap_size.
    + rewrite slice0_length by exact Hcap.
      rewrite (Permutation_length Hp). lia.
    + apply slice0_NoDup.
      apply (Permutation_NoDup (Permutation_sym Hp)), connected_NoDup.
    + intros k Hk. apply slice0_In in Hk.
      apply (Permutation_in _ Hp) in Hk.
      apply (connectedAfter_in_store this st searched seeds candidates0 k Hk).
Qed.

(** C5: for a cap that is not negative, [truncated] tells whether
    [matchedCount] exceeds [maxTotalNodes]; [matchedCount] is the size of the
    connected candidate set; and a truncated result holds
    [min(maxTotalNodes, matchedCount)] nodes, in both ranking modes. *)
Theorem buildNetwork_truncation (this : NetworkBuilder) (st : NetworkBuilderState)
  (logic : Logic) (mode : RankingMode) :
  0 <= maxTotalNodes st ->
  let g := snd (buildNetwork this st logic mode) in
  truncated g = (matchedCount g >? maxTotalNodes st)
  /\ matchedCount g = Z.of_nat (length (connectedCandidates this st logic))
  /\ (truncated g = true ->
      Z.of_nat (length (nodes g)) = Z.min (maxTotalNodes st) (matchedCount g)).
Proof.
  intros Hcap. unfold buildNetwork, connectedCandidates.
  destruct ((0 <? length (searchTerms st))%nat && (0 <? length (searchFields st))%nat).
  - destruct (length (searchNodes this (searchTerms st) (searchFields st) logic) =? 0)%nat.
    + simpl. repeat split; [|discriminate].
      symmetry. rewrite Z.gtb_ltb. apply Z.ltb_ge. exact Hcap.
    + apply assemble_truncation, Hcap.
  - apply assemble_truncation, Hcap.
Qed.

Lemma buildNetwork_truncation_witness :
  let g := snd (buildNetwork starGraph (showAll 2) OR subgraph) in
  truncated g = (matchedCount g >? 2)
  /\ matchedCount g = Z.of_nat (length (connectedCandidates starGraph (showAll 2) OR))
  /\ (truncated g = true -> Z.of_nat (length (nodes g)) = Z.min 2 (matchedCount g)).
Proof.
  apply (buildNetwork_truncation starGraph (showAll 2) OR subgraph).
  simpl. lia.
Defined.

(** The star of the specification capped at two nodes: A and one leaf, in
    both ranking modes. *)
Example star_capped_at_two :
  map id (nodesOf (fst (buildNetwork starGraph (showAll 2) OR global))
                  (snd (buildNetwork starGraph (showAll 2) OR global)))
  = ["A"; "B"]
  /\ map id (nodesOf (fst (buildNetwork starGraph (showAll 2) OR subgraph))
                     (snd (buildNetwork starGraph (showAll 2) OR subgraph)))
     = ["A"; "B"]
  /\ truncated (snd (buildNetwork starGraph (showAll 2) OR global)) = true
  /\ matchedCount (snd (buildNetwork starGraph (showAll 2) OR global)) = 5.
Proof. repeat split; vm_compute; reflexivity. Qed.

(** ** The annotation of the store (step 8) *)

Lemma setVal_modifyAt (nodeDegree : JsMap Z) (store : list GraphNode) (r : NodeRef) :
  setVal nodeDegree store r = modifyAt (valAnnot nodeDegree) store r.
Proof. reflexivity. Qed.

Lemma setColor_modifyAt (maxVal : Z) (store : list GraphNode) (r : NodeRef) :
  setColor maxVal store r = modifyAt (colorAnnot maxVal) store r.
Proof.
  unfold setColor, modifyAt, colorAnnot.
  destruct (store !! r) as [n|] eqn:E; [|reflexivity].
  destruct (val n); [reflexivity|].
  symmetry. apply list_insert_id. exact E.
Qed.

Lemma modifyAt_lookup (f : GraphNode -> GraphNode) (store : list GraphNode)
  (r j : NodeRef) :
  modifyAt f store r !! j
  = if Nat.eqb j r then option_map f (store !! j) else store !! j.
Proof.
  unfold modifyAt. destruct (Nat.eqb_spec j r) as [->|Hne].
  - destruct (store !! r) as [n|] eqn:E; simpl.
    + apply list_lookup_insert_eq. eapply lookup_lt_Some. exact E.
    + exact E.
  - destruct (store !! r) as [n|]; [|reflexivity].
    apply list_lookup_insert_ne. congruence.
Qed.

Lemma modifyAt_length (f : GraphNode -> GraphNode) (store : list GraphNode)
  (r : NodeRef) :
  length (modifyAt f store r) = length store.
Proof.
  unfold modifyAt. destruct (store !! r); [apply length_insert | reflexivity].
Qed.

Lemma modifyAll_lookup (f : GraphNode -> GraphNode) (refs : list NodeRef)
  (store : list GraphNode) (j : NodeRef) :
  (forall n, f (f n) = f n) ->
  fold_left (modifyAt f) refs store !! j
  = if existsb (Nat.eqb j) refs then option_map f (store !! j) else store !! j.
Proof.
  intros Hidem. revert store. induction refs as [|r refs IH]; intros store; simpl.
  - reflexivity.
  - rewrite IH, modifyAt_lookup.
    destruct (Nat.eqb j r); simpl; [|reflexivity].
    destruct (existsb (Nat.eqb j) refs); [|reflexivity].
    destruct (store !! j); simpl; [rewrite Hidem|]; reflexivity.
Qed.

Lemma modifyAll_length (f : GraphNode -> GraphNode) (refs : list NodeRef)
  (store : list GraphNode) :
  length (fold_left (modifyAt f) refs store) = length store.
Proof.
  apply (fold_left_invariant (modifyAt f) (fun s => length s = length store)).
  - reflexivity.
  - intros s r _ Hs. rewrite modifyAt_length. exact Hs.
Qed.

Lemma fold_left_ext {A B : Type} (f g : A -> B -> A) (l : list B) (a : A) :
  (forall a' x, f a' x = g a' x) -> fold_left f l a = fold_left g l a.
Proof.
  intros H. revert a. induction l as [|x l IH]; intros a; simpl.
  - reflexivity.
  - rewrite H. apply IH.
Qed.

Lemma valsOf_after (nodeDegree : JsMap Z) (store store1 : list GraphNode)
  (refs : list NodeRef) :
  (forall r, In r refs ->
             store1 !! r = option_map (valAnnot nodeDegree) (store !! r)) ->
  valsOf store1 refs
  = map (storedVal nodeDegree) (nodesAt store refs).
Proof.
  induction refs as [|r refs IH]; intros H; simpl.
  - reflexivity.
  - rewrite (H r (or_introl eq_refl)).
    rewrite IH by (intros r' Hr'; apply H; right; exact Hr').
    destruct (store !! r); reflexivity.
Qed.

Lemma existsb_eqb_In (refs : list NodeRef) (j : NodeRef) :
  existsb (Nat.eqb j) refs = true <-> In j refs.
Proof.
  rewrite existsb_exists. split.
  - intros [r [Hr He]]. apply Nat.eqb_eq in He. subst. exact Hr.
  - intros H. exists j. split; [exact H | apply Nat.eqb_refl].
Qed.

Lemma annotate_lookup (store : list GraphNode) (refs : list NodeRef)
  (ls : list GraphLink) (j : NodeRef) :
  let nodeDegree := countDegrees ls in
  let maxVal :=
    maxOf (map (storedVal nodeDegree) (nodesAt store refs)) in
  annotate store refs ls !! j
  = if existsb (Nat.eqb j) refs
    then option_map (annotated nodeDegree maxVal) (store !! j)
    else store !! j.
Proof.
  intros nodeDegree maxVal. unfold annotate. fold nodeDegree.
  rewrite (fold_left_ext (setVal nodeDegree) (modifyAt (valAnnot nodeDegree)))
    by (intros; apply setVal_modifyAt).
  set (store1 := fold_left (modifyAt (valAnnot nodeDegree)) refs store).
  assert (H1 : forall r, store1 !! r
                         = if existsb (Nat.eqb r) refs
                           then option_map (valAnnot nodeDegree) (store !! r)
                           else store !! r).
  { intros r. apply modifyAll_lookup. reflexivity. }
  rewrite (valsOf_after nodeDegree store store1 refs).
  2:{ intros r Hr. rewrite H1.
      apply existsb_eqb_In in Hr. rewrite Hr. reflexivity. }
  fold maxVal.
  rewrite (fold_left_ext (setColor maxVal) (modifyAt (colorAnnot maxVal)))
    by (intros; apply setColor_modifyAt).
  rewrite modifyAll_lookup.
  2:{ intros n. unfold colorAnnot. destruct (val n) eqn:E; simpl; rewrite E;
      reflexivity. }
  rewrite H1. destruct (existsb (Nat.eqb j) refs); [|reflexivity].
  destruct (store !! j); reflexivity.
Qed.

Lemma annotate_length (store : list GraphNode) (refs : list NodeRef)
  (ls : list GraphLink) :
  length (annotate store refs ls) = length store.
Proof.
  unfold annotate.
  rewrite (fold_left_ext (setColor _) (modifyAt (colorAnnot _)))
    by (intros; apply setColor_modifyAt).
  rewrite modifyAll_length.
  rewrite (fold_left_ext (setVal _) (modifyAt (valAnnot _)))
    by (intros; apply setVal_modifyAt).
  apply modifyAll_length.
Qed.

Lemma nodesAt_In (store : list GraphNode) (refs : list NodeRef)
  (n : GraphNode) :
  In n (nodesAt store refs)
  <-> exists r, In r refs /\ store !! r = Some n.
Proof.
  unfold nodesAt. rewrite in_flat_map. split; intros [r [Hr H]]; exists r.
  - destruct (store !! r) as [n0|]; [|destruct H].
    destruct H as [<-|[]]. auto.
  - rewrite H. split; [exact Hr | left; reflexivity].
Qed.

(** The returned nodes are the annotated copies of the nodes the references
    pointed to before the query. *)
Lemma annotate_nodes (store : list GraphNode) (refs : list NodeRef)
  (ls : list GraphLink) :
  let nodeDegree := countDegrees ls in
  let maxVal :=
    maxOf (map (storedVal nodeDegree) (nodesAt store refs)) in
  nodesAt (annotate store refs ls) refs
  = map (annotated nodeDegree maxVal) (nodesAt store refs).
Proof.
  intros nodeDegree maxVal.
  assert (H : forall l, (forall r, In r l -> In r refs) ->
            nodesAt (annotate store refs ls) l
            = map (annotated nodeDegree maxVal) (nodesAt store l)).
  { induction l as [|r l IH]; intros Hl; simpl; [reflexivity|].
    rewrite annotate_lookup.
    assert (Hr : existsb (Nat.eqb r) refs = true)
      by (apply existsb_eqb_In, Hl; left; reflexivity).
    rewrite Hr. fold nodeDegree. fold maxVal.
    rewrite IH by (intros r' Hr'; apply Hl; right; exact Hr').
    destruct (store !! r); reflexivity. }
  apply H. tauto.
Qed.

(** ** Degrees *)

Lemma orNum_bump (k' : string) (m : JsMap Z) (k : string) :
  orNum (map_get (bump k' m) k) 0
  = orNum (map_get m k) 0 + (if String.eqb k k' then 1 else 0).
Proof.
  unfold bump. rewrite map_get_set.
  destruct (String.eqb_spec k k') as [->|Hne]; [|lia].
  unfold orNum at 1. destruct (Z.eqb_spec (orNum (map_get m k') 0 + 1) 0); lia.
Qed.

Lemma countDegrees_from (ls : list GraphLink) (m : JsMap Z) (k : string) :
  orNum (map_get (fold_left (fun m link => bump (targetId link)
                                                (bump (sourceId link) m)) ls m) k) 0
  = orNum (map_get m k) 0 + localDegree ls k.
Proof.
  unfold localDegree. revert m. induction ls as [|l ls IH]; intros m; simpl.
  - lia.
  - rewrite IH, !orNum_bump.
    destruct (String.eqb k (sourceId l)), (String.eqb k (targetId l));
      simpl length; lia.
Qed.

Lemma countDegrees_get (ls : list GraphLink) (k : string) :
  orNum (map_get (countDegrees ls) k) 0 = localDegree ls k.
Proof. unfold countDegrees. rewrite countDegrees_from. reflexivity. Qed.

Lemma orNum_one (x : option Z) :
  orNum x 1 = if orNum x 0 =? 0 then 1 else orNum x 0.
Proof.
  destruct x as [d|]; simpl; [|reflexivity].
  destruct (Z.eqb_spec d 0) as [->|Hne]; [reflexivity|].
  destruct (Z.eqb_spec d 0); [contradiction | reflexivity].
Qed.

Lemma storedVal_displayDegree (ls : list GraphLink) (n : GraphNode) :
  storedVal (countDegrees ls) n = displayDegree ls (id n).
Proof.
  unfold storedVal, displayDegree. rewrite orNum_one, countDegrees_get.
  reflexivity.
Qed.

(** ** The result of a query *)

(** The parts of the result of steps 2 to 8. *)
Lemma assemble_shown (this : NetworkBuilder) (st : NetworkBuilderState)
  (mode : RankingMode) (searched : bool) (seeds candidates0 : JsSet) :
  let res := assemble this st mode searched seeds candidates0 in
  let g := snd res in
  let before := nodesAt (allNodes this) (nodes g) in
  let maxVal := maxOf (map (fun m => displayDegree (links g) (id m)) before) in
  nodesOf (fst res) g
  = map (annotated (countDegrees (links g)) maxVal) before.
Proof.
  intros res g before maxVal. unfold nodesOf.
  change (allNodes (fst res))
    with (annotate (allNodes this) (nodes g) (links g)).
  rewrite annotate_nodes. fold before.
  rewrite (map_ext (storedVal (countDegrees (links g)))
                   (fun m => displayDegree (links g) (id m)))
    by (intros m; apply storedVal_displayDegree).
  reflexivity.
Qed.

Lemma display_annotated (ls : list GraphLink) (maxVal : Z) (n0 : GraphNode) :
  let n := annotated (countDegrees ls) maxVal n0 in
  id n = id n0
  /\ node_type n = node_type n0
  /\ val n = Some (displayDegree ls (id n0))
  /\ totalVal n = val n
  /\ color n = Some (colorFor (node_type n0)
                              (strength maxVal (displayDegree ls (id n0))))
  /\ baseColor n = color n.
Proof.
  simpl. rewrite storedVal_displayDegree. repeat split; reflexivity.
Qed.

(** C10, as stated, fails for a node that truncation leaves without a link:
    the star capped at one node returns A alone, its degree within the
    returned links is 0, and the stored value is 1 with the colour of the
    high anchor ([t = 1]) where [t = 0] gives the low anchor. *)
Lemma linkless_node_is_stored_as_one :
  let res := buildNetwork starGraph (showAll 1) OR global in
  map id (nodesOf (fst res) (snd res)) = ["A"]
  /\ links (snd res) = []
  /\ localDegree (links (snd res)) "A" = 0
  /\ map val (nodesOf (fst res) (snd res)) = [Some 1]
  /\ map totalVal (nodesOf (fst res) (snd res)) = [Some 1]
  /\ map color (nodesOf (fst res) (snd res)) = [Some "rgb(65, 55, 143)"]
  /\ sectionColorScale (strength 1 0) = "rgb(155, 150, 201)".
Proof. vm_compute. repeat split; reflexivity. Qed.

(** C10 (amended): for every returned node, the stored [val] is its degree
    within the returned links, or 1 where that degree is 0; [totalVal] is the
    same value; and [color] and [baseColor] are the colour of the node type's
    scale at [t = val / max(val over the returned nodes, 1)], each channel
    rounded to the nearest integer. *)
Theorem buildNetwork_display (this : NetworkBuilder) (st : NetworkBuilderState)
  (logic : Logic) (mode : RankingMode) (n : GraphNode) :
  let res := buildNetwork this st logic mode in
  let g := snd res in
  let shown := nodesOf (fst res) g in
  let maxVal := maxOf (map (fun m => displayDegree (links g) (id m)) shown) in
  In n shown ->
  val n = Some (displayDegree (links g) (id n))
  /\ totalVal n = val n
  /\ color n = Some (colorFor (node_type n)
                              (strength maxVal (displayDegree (links g) (id n))))
  /\ baseColor n = color n.
Proof.
  assert (Hassemble : forall searched seeds candidates0,
    let res := assemble this st mode searched seeds candidates0 in
    let g := snd res in
    let shown := nodesOf (fst res) g in
    let maxVal := maxOf (map (fun m => displayDegree (links g) (id m)) shown) in
    In n shown ->
    val n = Some (displayDegree (links g) (id n))
    /\ totalVal n = val n
    /\ color n = Some (colorFor (node_type n)
                                (strength maxVal (displayDegree (links g) (id n))))
    /\ baseColor n = color n).
  { intros searched seeds candidates0 res g shown maxVal.
    unfold maxVal, shown, g, res. rewrite assemble_shown.
    rewrite map_map.
    intros Hn. apply in_map_iff in Hn. destruct Hn as [n0 [<- _]].
    destruct (display_annotated
                (links (snd (assemble this st mode searched seeds candidates0)))
                (maxOf (map (fun m => displayDegree
                   (links (snd (assemble this st mode searched seeds candidates0)))
                   (id m))
                   (nodesAt (allNodes this)
                      (nodes (snd (assemble this st mode searched seeds candidates0))))))
                n0) as (Hid & Hty & Hval & Htot & Hcol & Hbase).
    rewrite Hid, Hty. repeat split; assumption. }
  unfold buildNetwork.
  destruct ((0 <? length (searchTerms st))%nat && (0 <? length (searchFields st))%nat).
  - destruct (length (searchNodes this (searchTerms st) (searchFields st) logic) =? 0)%nat.
    + simpl. tauto.
    + apply Hassemble.
  - apply Hassemble.
Qed.

Lemma buildNetwork_display_witness :
  let res := buildNetwork starGraph (showAll 10) OR global in
  let g := snd res in
  let shown := nodesOf (fst res) g in
  let maxVal := maxOf (map (fun m => displayDegree (links g) (id m)) shown) in
  val starA = Some (displayDegree (links g) (id starA))
  /\ totalVal starA = val starA
  /\ color starA
     = Some (colorFor (node_type starA)
                      (strength maxVal (displayDegree (links g) (id starA))))
  /\ baseColor starA = color starA.
Proof.
  apply (buildNetwork_display starGraph (showAll 10) OR global starA).
  vm_compute. left. reflexivity.
Defined.

(** The whole star, uncapped: A has degree 4, the leaves degree 1, and the
    colours are those of the scales at [t = 1] and [t = 1/4]. *)
Example star_uncapped :
  let res := buildNetwork starGraph (showAll 10) OR global in
  map (fun n => (id n, val n, color n)) (nodesOf (fst res) (snd res))
  = [("A", Some 4, Some "rgb(65, 55, 143)");
     ("B", Some 1, Some "rgb(247, 205, 129)");
     ("C", Some 1, Some "rgb(213, 147, 207)");
     ("D", Some 1, Some "rgb(133, 126, 187)");
     ("E", Some 1, Some "#AFBBE8")].
Proof. vm_compute. reflexivity. Qed.

(** ** Isolates *)

(** The parts of the result of steps 2 to 8 when nothing is truncated. *)
Lemma assemble_untruncated (this : NetworkBuilder) (st : NetworkBuilderState)
  (mode : RankingMode) (searched : bool) (seeds candidates0 : JsSet) :
  let store := allNodes this in
  let cmap := nodeMap store (candidateNodeIdsOf store st searched seeds candidates0) in
  let connected := connectedAfter this st searched seeds candidates0 in
  let g := snd (assemble this st mode searched seeds candidates0) in
  truncated g = false ->
  nodes g = map_values (nodeMap store connected)
  /\ links g = filter (bothIn (nodeMap store connected)) (candidateLinksOf this st cmap).
Proof.
  intros store cmap connected g Htr. unfold g in *. unfold assemble in *.
  simpl in *. fold store in Htr |- *. fold cmap in Htr |- *.
  fold (connectedAfter this st searched seeds candidates0) in Htr |- *.
  fold connected in Htr |- *.
  rewrite Htr. split; reflexivity.
Qed.

(** A candidate link joins two connected candidates. *)
Lemma candidateLink_ends_connected (this : NetworkBuilder)
  (st : NetworkBuilderState) (searched : bool) (seeds candidates0 : JsSet)
  (l : GraphLink) (k : string) :
  let store := allNodes this in
  let cmap := nodeMap store (candidateNodeIdsOf store st searched seeds candidates0) in
  In l (candidateLinksOf this st cmap) ->
  isEndOf k l = true ->
  map_has (nodeMap store (connectedAfter this st searched seeds candidates0)) k = true.
Proof.
  intros store cmap Hl Hk.
  assert (Hends : existsb (isEndOf k) (candidateLinksOf this st cmap) = true).
  { apply existsb_exists. exists l. split; assumption. }
  assert (Hin : map_has cmap k = true).
  { unfold candidateLinksOf in Hl. apply filter_In in Hl.
    destruct Hl as [_ Hl]. apply andb_true_iff in Hl. destruct Hl as [_ Hl].
    unfold bothIn in Hl. apply andb_true_iff in Hl. destruct Hl as [Hs Ht].
    apply isEndOf_true in Hk. destruct Hk as [-> | ->]; assumption. }
  apply nodeMap_has. split.
  - unfold connectedAfter. apply connected_In. split; assumption.
  - apply nodeMap_has in Hin. tauto.
Qed.

Lemma assemble_no_isolated_node (this : NetworkBuilder) (st : NetworkBuilderState)
  (mode : RankingMode) (searched : bool) (seeds candidates0 : JsSet)
  (n : GraphNode) :
  let res := assemble this st mode searched seeds candidates0 in
  truncated (snd res) = false ->
  In n (nodesOf (fst res) (snd res)) ->
  exists l, In l (links (snd res)) /\ (id n = sourceId l \/ id n = targetId l).
Proof.
  intros res Htr Hn. unfold res in Hn. rewrite assemble_shown in Hn.
  apply in_map_iff in Hn. destruct Hn as [n0 [<- Hn0]].
  change (id (annotated _ _ n0)) with (id n0).
  destruct (assemble_untruncated this st mode searched seeds candidates0 Htr)
    as [Hnodes Hlinks].
  rewrite Hnodes in Hn0. unfold res. rewrite Hlinks.
  apply nodesAt_In in Hn0. destruct Hn0 as [r [Hr E]].
  apply nodeMap_values in Hr. destruct Hr as [n' [E' [Hconn _]]].
  assert (n' = n0) by congruence. subst n'.
  destruct (connectedAfter_ends this st searched seeds candidates0 (id n0) Hconn)
    as [_ Hends].
  apply existsb_exists in Hends. destruct Hends as [l [Hl Hk]].
  exists l. split; [|apply isEndOf_true, Hk].
  apply filter_In. split; [exact Hl|].
  unfold bothIn. apply andb_true_iff. split.
  - apply (candidateLink_ends_connected this st searched seeds candidates0 l);
      [exact Hl | apply isEndOf_true; left; reflexivity].
  - apply (candidateLink_ends_connected this st searched seeds candidates0 l);
      [exact Hl | apply isEndOf_true; right; reflexivity].
Qed.

(** C4, as stated, fails once truncation cuts a node off its neighbours: the
    star capped at one node returns A and no link. *)
Lemma truncation_leaves_linkless_node :
  let res := buildNetwork starGraph (showAll 1) OR global in
  map id (nodesOf (fst res) (snd res)) = ["A"]
  /\ links (snd res) = []
  /\ truncated (snd res) = true.
Proof. vm_compute. repeat split; reflexivity. Qed.

(** C4 (amended): when the result is not truncated, every returned node is an
    end of at least one returned link. *)
Theorem buildNetwork_no_isolated_node (this : NetworkBuilder)
  (st : NetworkBuilderState) (logic : Logic) (mode : RankingMode)
  (n : GraphNode) :
  let res := buildNetwork this st logic mode in
  truncated (snd res) = false ->
  In n (nodesOf (fst res) (snd res)) ->
  exists l, In l (links (snd res)) /\ (id n = sourceId l \/ id n = targetId l).
Proof.
  unfold buildNetwork.
  destruct ((0 <? length (searchTerms st))%nat && (0 <? length (searchFields st))%nat).
  - destruct (length (searchNodes this (searchTerms st) (searchFields st) logic) =? 0)%nat.
    + simpl. tauto.
    + apply assemble_no_isolated_node.
  - apply assemble_no_isolated_node.
Qed.

Lemma buildNetwork_no_isolated_node_witness :
  exists l, In l (links (snd (buildNetwork starGraph (showAll 10) OR global)))
            /\ (id starA = sourceId l \/ id starA = targetId l).
Proof.
  apply (buildNetwork_no_isolated_node starGraph (showAll 10) OR global starA).
  - vm_compute. reflexivity.
  - vm_compute. left. reflexivity.
Defined.

(** ** Dangling links *)

Lemma assemble_links (this : NetworkBuilder) (st : NetworkBuilderState)
  (mode : RankingMode) (searched : bool) (seeds candidates0 : JsSet)
  (l : GraphLink) :
  In l (links (snd (assemble this st mode searched seeds candidates0))) ->
  In l (allLinks this)
  /\ (exists n, In n (allNodes this) /\ id n = sourceId l)
  /\ (exists m, In m (allNodes this) /\ id m = targetId l).
Proof.
  unfold assemble. simpl. intros H.
  apply filter_In in H. destruct H as [Hl Hboth].
  unfold candidateLinksOf in Hl. apply filter_In in Hl. destruct Hl as [Hl _].
  unfold bothIn in Hboth. apply andb_true_iff in Hboth.
  destruct Hboth as [Hs Ht].
  apply nodeMap_has in Hs. apply nodeMap_has in Ht. tauto.
Qed.

Lemma buildNetwork_links (this : NetworkBuilder) (st : NetworkBuilderState)
  (logic : Logic) (mode : RankingMode) (l : GraphLink) :
  In l (links (snd (buildNetwork this st logic mode))) ->
  In l (allLinks this)
  /\ (exists n, In n (allNodes this) /\ id n = sourceId l)
  /\ (exists m, In m (allNodes this) /\ id m = targetId l).
Proof.
  unfold buildNetwork.
  destruct ((0 <? length (searchTerms st))%nat && (0 <? length (searchFields st))%nat).
  - destruct (length (searchNodes this (searchTerms st) (searchFields st) logic) =? 0)%nat.
    + simpl. tauto.
    + apply assemble_links.
  - apply assemble_links.
Qed.

(** C6, as stated, fails: the constructor indexes a dangling link like any
    other, so "X" is a key of the index though no node has that id; the
    dangling links raise the global degree of C and D, which changes the nodes
    a capped query returns; and expansion walks to "X". *)
Lemma dangling_link_is_indexed :
  map id (allNodes danglingGraph) = ["A"; "B"; "C"; "D"]
  /\ map_keys (adjacencyMap danglingGraph) = ["A"; "B"; "C"; "D"; "X"]
  /\ map id (nodesOf (fst (buildNetwork cleanGraph (showAll 2) OR global))
                     (snd (buildNetwork cleanGraph (showAll 2) OR global)))
     = ["A"; "B"]
  /\ map id (nodesOf (fst (buildNetwork danglingGraph (showAll 2) OR global))
                     (snd (buildNetwork danglingGraph (showAll 2) OR global)))
     = ["C"; "D"]
  /\ expandFromSeeds danglingGraph ["C"] 1 0 [] = ["C"; "D"; "X"].
Proof. vm_compute. repeat split; reflexivity. Qed.

(** C6 (amended): the constructor validates nothing: the ids keyed in the
    adjacency index are exactly the source and target ids of the supplied
    links.  A dangling link is kept out of the link list a query returns:
    every returned link is a supplied link whose two ends are ids of base
    nodes. *)
Theorem dangling_links_indexed_not_returned (nodes0 : list GraphNode)
  (links0 : list GraphLink) (st : NetworkBuilderState) (logic : Logic)
  (mode : RankingMode) :
  let this := constructor nodes0 links0 in
  (forall k, In k (map_keys (adjacencyMap this))
             <-> exists l, In l links0 /\ (k = sourceId l \/ k = targetId l))
  /\ (forall l, In l (links (snd (buildNetwork this st logic mode))) ->
                In l links0
                /\ (exists n, In n nodes0 /\ id n = sourceId l)
                /\ (exists m, In m nodes0 /\ id m = targetId l)).
Proof.
  intros this. split.
  - intros k. apply adjacency_keys.
  - intros l Hl. apply (buildNetwork_links this st logic mode l Hl).
Qed.

(** ** What a query writes *)

Lemma existsb_eqb_not_In (refs : list NodeRef) (j : NodeRef) :
  ~ In j refs -> existsb (Nat.eqb j) refs = false.
Proof.
  intros H. destruct (existsb (Nat.eqb j) refs) eqn:E; [|reflexivity].
  apply existsb_eqb_In in E. contradiction.
Qed.

Lemma assemble_frame (this : NetworkBuilder) (st : NetworkBuilderState)
  (mode : RankingMode) (searched : bool) (seeds candidates0 : JsSet) :
  let res := assemble this st mode searched seeds candidates0 in
  allLinks (fst res) = allLinks this
  /\ adjacencyMap (fst res) = adjacencyMap this
  /\ length (allNodes (fst res)) = length (allNodes this)
  /\ (forall r n, allNodes this !! r = Some n ->
        (In r (nodes (snd res)) ->
         exists v c, allNodes (fst res) !! r = Some (withColor c (withVal v n)))
        /\ (~ In r (nodes (snd res)) -> allNodes (fst res) !! r = Some n))
  /\ (forall r, In r (nodes (snd res)) -> exists n, allNodes this !! r = Some n).
Proof.
  intros res.
  change (allNodes (fst res))
    with (annotate (allNodes this) (nodes (snd res)) (links (snd res))).
  split; [reflexivity|]. split; [reflexivity|].
  split; [apply annotate_length|]. split.
  - intros r n E. rewrite annotate_lookup, E. split; intros Hr.
    + apply existsb_eqb_In in Hr. rewrite Hr. simpl.
      eexists. eexists. unfold annotated. reflexivity.
    + rewrite (existsb_eqb_not_In _ _ Hr). reflexivity.
  - intros r Hr. unfold res, assemble in Hr. simpl in Hr.
    apply nodeMap_values in Hr. destruct Hr as [n [E _]]. exists n. exact E.
Qed.

(** C1, as stated, fails: the query writes the degree and the colour into the
    node objects of the base graph, and the node list it returns holds those
    same objects, so a later query changes what an earlier result shows. *)
Lemma buildNetwork_writes_base_nodes :
  let first := buildNetwork starGraph (showAll 10) OR global in
  let second := buildNetwork (fst first) (showAll 2) OR global in
  map val (allNodes starGraph) = [None; None; None; None; None]
  /\ map val (allNodes (fst first)) = [Some 4; Some 1; Some 1; Some 1; Some 1]
  /\ map val (nodesOf (fst first) (snd first))
     = [Some 4; Some 1; Some 1; Some 1; Some 1]
  /\ map val (nodesOf (fst second) (snd first))
     = [Some 1; Some 1; Some 1; Some 1; Some 1].
Proof. vm_compute. repeat split; reflexivity. Qed.

(** C1 (amended): a query leaves the link list, the adjacency index and the
    number of base node objects as they were; it overwrites [val],
    [totalVal], [color] and [baseColor] of the node objects it returns and
    nothing else, and no field of any other node object; the nodes it returns
    are base node objects, not copies. *)
Theorem buildNetwork_frame (this : NetworkBuilder) (st : NetworkBuilderState)
  (logic : Logic) (mode : RankingMode) :
  let res := buildNetwork this st logic mode in
  allLinks (fst res) = allLinks this
  /\ adjacencyMap (fst res) = adjacencyMap this
  /\ length (allNodes (fst res)) = length (allNodes this)
  /\ (forall r n, allNodes this !! r = Some n ->
        (In r (nodes (snd res)) ->
         exists v c, allNodes (fst res) !! r = Some (withColor c (withVal v n)))
        /\ (~ In r (nodes (snd res)) -> allNodes (fst res) !! r = Some n))
  /\ (forall r, In r (nodes (snd res)) -> exists n, allNodes this !! r = Some n).
Proof.
  unfold buildNetwork.
  destruct ((0 <? length (searchTerms st))%nat && (0 <? length (searchFields st))%nat).
  - destruct (length (searchNodes this (searchTerms st) (searchFields st) logic) =? 0)%nat.
    + simpl. repeat split; try reflexivity; try tauto.
    + apply assemble_frame.
  - apply assemble_frame.
Qed.

(** The star capped at two nodes returns A and B; the object of E, which is
    not returned, is left as it was. *)
Lemma buildNetwork_frame_witness :
  allNodes (fst (buildNetwork starGraph (showAll 2) OR global)) !! 4%nat
  = Some (exampleNode "E" "other").
Proof.
  destruct (buildNetwork_frame starGraph (showAll 2) OR global)
    as (_ & _ & _ & H & _).
  apply (H 4%nat (exampleNode "E" "other")).
  - reflexivity.
  - vm_compute. intros [H1|[H1|[]]]; discriminate.
Defined.

Lemma dangling_links_indexed_not_returned_witness :
  In "X" (map_keys (adjacencyMap danglingGraph)).
Proof.
  destruct (dangling_links_indexed_not_returned
              fourNodes (allLinks danglingGraph) (showAll 2) OR global)
    as [H _].
  apply H. exists (exampleLink "C" "X").
  split; [right; right; left; reflexivity | right; reflexivity].
Defined.


(** * Further properties *)

(** ** The adjacency index holds every link at both ends *)

Lemma getOrEmpty_set_fresh (k : string) (m : JsMap (list Neighbor)) (k' : string) :
  map_has m k = false -> getOrEmpty (map_set k [] m) k' = getOrEmpty m k'.
Proof.
  intros H. unfold getOrEmpty. rewrite map_get_set.
  destruct (String.eqb_spec k' k) as [->|]; [|reflexivity].
  unfold map_has in H. destruct (map_get m k); [discriminate | reflexivity].
Qed.

Lemma getOrEmpty_push (k : string) (x : Neighbor) (m : JsMap (list Neighbor))
  (k' : string) :
  map_has m k = true ->
  getOrEmpty (map_push k x m) k'
  = getOrEmpty m k' ++ (if String.eqb k' k then [x] else []).
Proof.
  unfold map_has, map_push, getOrEmpty.
  destruct (map_get m k) as [a|] eqn:E; [intros _ | discriminate].
  rewrite map_get_set.
  destruct (String.eqb_spec k' k) as [->|].
  - rewrite E. reflexivity.
  - symmetry. apply app_nil_r.
Qed.

Lemma getOrEmpty_addLink (adj : JsMap (list Neighbor)) (l : GraphLink) (k : string) :
  getOrEmpty (addLink adj l) k = getOrEmpty adj k ++ entriesOf k l.
Proof.
  unfold addLink, entriesOf.
  set (adj1 := if map_has adj (sourceId l) then adj
               else map_set (sourceId l) [] adj).
  set (adj2 := if map_has adj1 (targetId l) then adj1
               else map_set (targetId l) [] adj1).
  assert (H1 : forall k', getOrEmpty adj1 k' = getOrEmpty adj k').
  { intros k'. unfold adj1. destruct (map_has adj (sourceId l)) eqn:E;
      [reflexivity | apply getOrEmpty_set_fresh, E]. }
  assert (Hs1 : map_has adj1 (sourceId l) = true).
  { unfold adj1. destruct (map_has adj (sourceId l)) eqn:E; [exact E|].
    rewrite map_has_set, String.eqb_refl. reflexivity. }
  assert (H2 : forall k', getOrEmpty adj2 k' = getOrEmpty adj k').
  { intros k'. rewrite <- H1. unfold adj2.
    destruct (map_has adj1 (targetId l)) eqn:E;
      [reflexivity | apply getOrEmpty_set_fresh, E]. }
  assert (Hs2 : map_has adj2 (sourceId l) = true).
  { unfold adj2. destruct (map_has adj1 (targetId l)); [exact Hs1|].
    rewrite map_has_set, Hs1. apply orb_true_r. }
  assert (Ht2 : map_has adj2 (targetId l) = true).
  { unfold adj2. destruct (map_has adj1 (targetId l)) eqn:E; [exact E|].
    rewrite map_has_set, String.eqb_refl. reflexivity. }
  rewrite getOrEmpty_push by (rewrite map_has_push; exact Ht2).
  rewrite getOrEmpty_push by exact Hs2.
  rewrite H2, <- app_assoc. reflexivity.
Qed.

Lemma getOrEmpty_adjacency (links0 : list GraphLink) (adj : JsMap (list Neighbor))
  (k : string) :
  getOrEmpty (fold_left addLink links0 adj) k
  = getOrEmpty adj k ++ flat_map (entriesOf k) links0.
Proof.
  revert adj. induction links0 as [|l links0 IH]; intros adj; simpl.
  - symmetry. apply app_nil_r.
  - rewrite IH, getOrEmpty_addLink, <- app_assoc. reflexivity.
Qed.

(** The neighbour list of [k] is, link by link in the order of the link
    list, what each link contributes at [k]. *)
Lemma neighborsOf_constructor (nodes0 : list GraphNode) (links0 : list GraphLink)
  (k : string) :
  neighborsOf (constructor nodes0 links0) k = flat_map (entriesOf k) links0.
Proof.
  change (neighborsOf (constructor nodes0 links0) k)
    with (getOrEmpty (fold_left addLink links0 []) k).
  rewrite getOrEmpty_adjacency. reflexivity.
Qed.

Lemma entriesOf_In (k : string) (l : GraphLink) (n : Neighbor) :
  In n (entriesOf k l)
  <-> (k = sourceId l /\ n = mkNeighbor (targetId l) (edge_type l))
      \/ (k = targetId l /\ n = mkNeighbor (sourceId l) (edge_type l)).
Proof.
  unfold entriesOf. rewrite in_app_iff.
  destruct (String.eqb_spec k (sourceId l)) as [Hs|Hs];
    destruct (String.eqb_spec k (targetId l)) as [Ht|Ht]; simpl;
    intuition congruence.
Qed.

(** X1: the index built by the constructor is the undirected adjacency of
    the link list: [n] is listed under [k] exactly when some link has [k] at
    one end and [n] names its other end and its edge type; so [b] is listed
    under [a] with an edge type exactly when [a] is listed under [b] with it. *)
Theorem adjacency_is_undirected (nodes0 : list GraphNode) (links0 : list GraphLink)
  (a b e : string) (n : Neighbor) :
  let this := constructor nodes0 links0 in
  (In n (neighborsOf this a)
   <-> exists l, In l links0
                 /\ ((a = sourceId l /\ n = mkNeighbor (targetId l) (edge_type l))
                     \/ (a = targetId l /\ n = mkNeighbor (sourceId l) (edge_type l))))
  /\ (In (mkNeighbor b e) (neighborsOf this a)
      <-> In (mkNeighbor a e) (neighborsOf this b)).
Proof.
  intros this. unfold this. rewrite !neighborsOf_constructor. split.
  - rewrite in_flat_map. split; intros [l [Hl H]]; exists l; (split; [exact Hl|]);
      apply entriesOf_In; exact H.
  - rewrite !in_flat_map. split; intros [l [Hl H]]; exists l; (split; [exact Hl|]);
      apply entriesOf_In; apply entriesOf_In in H;
      destruct H as [[-> [= -> ->]]|[-> [= -> ->]]]; auto.
Qed.

(** X2: the length of the neighbour list of [k], the degree the global
    ranking uses, is the number of link ends at [k] in the whole link list (a
    link from [k] to itself counts twice, a dangling link counts too). *)
Theorem adjacency_degree (nodes0 : list GraphNode) (links0 : list GraphLink)
  (k : string) :
  globalDegree (constructor nodes0 links0) k = localDegree links0 k.
Proof.
  unfold globalDegree, localDegree. rewrite neighborsOf_constructor. f_equal.
  induction links0 as [|l links0 IH]; simpl; [reflexivity|].
  rewrite length_app, IH. unfold entriesOf. rewrite length_app.
  destruct (String.eqb k (sourceId l)), (String.eqb k (targetId l)); simpl; lia.
Qed.

(** ** searchNodes: the result set, the terms and the fields *)

(** X3: the result of [searchNodes] has no id twice, and an id is in it
    exactly when some node with that id matches. *)
Theorem searchNodes_matching_ids (this : NetworkBuilder)
  (terms fields : list string) (logic : Logic) (x : string) :
  NoDup (searchNodes this terms fields logic)
  /\ (In x (searchNodes this terms fields logic)
      <-> exists node, In node (allNodes this) /\ id node = x
            /\ nodeMatches logic (map (fun t => trim (toLowerCase t)) terms)
                           (searchableValues node fields) = true).
Proof.
  rewrite searchNodes_collect. split; [apply newSet_NoDup|].
  rewrite newSet_In, in_map_iff. split.
  - intros [node [Hid Hn]]. apply filter_In in Hn. exists node. tauto.
  - intros [node [Hn [Hid Hm]]]. exists node. split; [exact Hid|].
    apply filter_In. tauto.
Qed.

Lemma lowerAscii_idempotent (c : ascii) : lowerAscii (lowerAscii c) = lowerAscii c.
Proof.
  destruct c as [[] [] [] [] [] [] [] []]; reflexivity.
Qed.

Lemma isSpace_lowerAscii (c : ascii) : isSpace (lowerAscii c) = isSpace c.
Proof.
  destruct c as [[] [] [] [] [] [] [] []]; reflexivity.
Qed.

Lemma toLowerCase_idempotent (s : string) : toLowerCase (toLowerCase s) = toLowerCase s.
Proof.
  induction s as [|c r IH]; simpl; [reflexivity|].
  rewrite lowerAscii_idempotent, IH. reflexivity.
Qed.

Lemma toLowerCase_trimStart (s : string) :
  toLowerCase (trimStart s) = trimStart (toLowerCase s).
Proof.
  induction s as [|c r IH]; simpl; [reflexivity|].
  rewrite isSpace_lowerAscii. destruct (isSpace c); [exact IH | reflexivity].
Qed.

Lemma toLowerCase_trimEnd (s : string) :
  toLowerCase (trimEnd s) = trimEnd (toLowerCase s).
Proof.
  induction s as [|c r IH]; simpl; [reflexivity|].
  rewrite <- IH, isSpace_lowerAscii.
  destruct (trimEnd r); simpl; [destruct (isSpace c)|]; reflexivity.
Qed.

Lemma toLowerCase_trim (s : string) : toLowerCase (trim s) = trim (toLowerCase s).
Proof.
  unfold trim. rewrite toLowerCase_trimEnd, toLowerCase_trimStart. reflexivity.
Qed.

Lemma trimEnd_idempotent (s : string) : trimEnd (trimEnd s) = trimEnd s.
Proof.
  induction s as [|c r IH]; simpl; [reflexivity|].
  destruct (trimEnd r) as [|c' r'] eqn:E.
  - destruct (isSpace c) eqn:Ec; simpl; [reflexivity|]. rewrite Ec. reflexivity.
  - change (trimEnd (String c (String c' r')))
      with (match trimEnd (String c' r') with
            | EmptyString => if isSpace c then EmptyString else String c EmptyString
            | r'' => String c r''
            end).
    rewrite IH. reflexivity.
Qed.

Lemma trimStart_trimEnd (s : string) :
  trimStart (trimEnd (trimStart s)) = trimEnd (trimStart s).
Proof.
  induction s as [|c r IH]; simpl; [reflexivity|].
  destruct (isSpace c) eqn:Ec; [exact IH|].
  simpl. destruct (trimEnd r); rewrite ?Ec; simpl; rewrite ?Ec; reflexivity.
Qed.

Lemma trim_idempotent (s : string) : trim (trim s) = trim s.
Proof.
  unfold trim. rewrite trimStart_trimEnd. apply trimEnd_idempotent.
Qed.

(** X4: matching ignores the letter case of a term and the white space
    around it: lower-casing the terms beforehand, or trimming them, leaves
    the result as it is. *)
Theorem searchNodes_terms_normalized (this : NetworkBuilder)
  (terms fields : list string) (logic : Logic) :
  searchNodes this (map toLowerCase terms) fields logic
  = searchNodes this terms fields logic
  /\ searchNodes this (map trim terms) fields logic
     = searchNodes this terms fields logic.
Proof.
  unfold searchNodes. rewrite !map_map. split.
  - rewrite (map_ext (fun t => trim (toLowerCase (toLowerCase t)))
                     (fun t => trim (toLowerCase t)));
      [reflexivity | intros t; rewrite toLowerCase_idempotent; reflexivity].
  - rewrite (map_ext (fun t => trim (toLowerCase (trim t)))
                     (fun t => trim (toLowerCase t)));
      [reflexivity | intros t; rewrite toLowerCase_trim; apply trim_idempotent].
Qed.

Lemma termFound_incl (values values' : list string) (term : string) :
  incl values values' -> termFound values term = true ->
  termFound values' term = true.
Proof.
  unfold termFound. rewrite !existsb_exists. intros Hincl [v [Hv Hm]].
  exists v. split; [apply Hincl, Hv | exact Hm].
Qed.

Lemma nodeMatches_more_values (logic : Logic) (terms values values' : list string) :
  incl values values' -> nodeMatches logic terms values = true ->
  nodeMatches logic terms values' = true.
Proof.
  intros Hincl. destruct logic; simpl.
  - rewrite !forallb_forall. intros H t Ht.
    apply (termFound_incl values); [exact Hincl | apply H, Ht].
  - rewrite !existsb_exists. intros [t [Ht Hm]]. exists t.
    split; [exact Ht | apply (termFound_incl values); assumption].
Qed.

Lemma searchNodes_incl (this : NetworkBuilder) (terms terms' fields fields' : list string)
  (logic logic' : Logic) :
  (forall node,
     nodeMatches logic (map (fun t => trim (toLowerCase t)) terms)
                 (searchableValues node fields) = true ->
     nodeMatches logic' (map (fun t => trim (toLowerCase t)) terms')
                 (searchableValues node fields') = true) ->
  incl (searchNodes this terms fields logic) (searchNodes this terms' fields' logic').
Proof.
  intros H x. rewrite !searchNodes_collect, !newSet_In, !in_map_iff.
  intros [node [Hid Hn]]. exists node. split; [exact Hid|].
  apply filter_In in Hn. apply filter_In. split; [tauto|]. apply H. tauto.
Qed.

(** X5: under OR logic more terms can only add matches, under AND logic
    more terms can only remove matches, and under either logic more fields
    can only add matches. *)
Theorem searchNodes_monotone (this : NetworkBuilder)
  (terms moreTerms fields moreFields : list string) (logic : Logic) :
  incl (searchNodes this terms fields OR)
       (searchNodes this (terms ++ moreTerms) fields OR)
  /\ incl (searchNodes this (terms ++ moreTerms) fields AND)
          (searchNodes this terms fields AND)
  /\ incl (searchNodes this terms fields logic)
          (searchNodes this terms (fields ++ moreFields) logic).
Proof.
  repeat split; apply searchNodes_incl; intros node.
  - simpl. rewrite map_app, existsb_app. intros ->. reflexivity.
  - simpl. rewrite map_app, forallb_app. intros H.
    apply andb_true_iff in H. tauto.
  - apply nodeMatches_more_values. unfold searchableValues.
    rewrite flat_map_app. intros v Hv. apply in_or_app. left. exact Hv.
Qed.

(** X6: for a single term the two logics give the same result. *)
Theorem searchNodes_single_term (this : NetworkBuilder) (term : string)
  (fields : list string) :
  searchNodes this [term] fields AND = searchNodes this [term] fields OR.
Proof.
  rewrite !searchNodes_collect.
  erewrite filter_ext; [reflexivity|].
  intros node. simpl. rewrite andb_true_r, orb_false_r. reflexivity.
Qed.

(** ** filterByAttributes with a type filter *)

Lemma includesStr_In (a : list string) (x : string) :
  includesStr a x = true <-> In x a.
Proof. apply (set_has_In a x). Qed.

(** X7: with a non-empty type list the title and section lists play no part:
    the result has no id twice and holds exactly the ids of the nodes whose
    type is in the list; with all three lists empty it holds the ids of all
    nodes. *)
Theorem filterByAttributes_by_type (this : NetworkBuilder) (ty : string)
  (types : list string) (titles : list Z) (sections : list string) (x : string) :
  NoDup (filterByAttributes this (ty :: types) titles sections)
  /\ (In x (filterByAttributes this (ty :: types) titles sections)
      <-> exists node, In node (allNodes this) /\ id node = x
                       /\ In (node_type node) (ty :: types))
  /\ filterByAttributes this [] [] [] = newSet (map id (allNodes this)).
Proof.
  rewrite !filterByAttributes_collect. split; [apply newSet_NoDup|]. split.
  - rewrite newSet_In, in_map_iff. split.
    + intros [node [Hid Hn]]. apply filter_In in Hn. destruct Hn as [Hn Hm].
      exists node. split; [exact Hn|]. split; [exact Hid|].
      apply includesStr_In. exact Hm.
    + intros [node [Hn [Hid Hty]]]. exists node. split; [exact Hid|].
      apply filter_In. split; [exact Hn|].
      apply includesStr_In in Hty. exact Hty.
  - rewrite filter_all; reflexivity.
Qed.

(** ** expandFromSeeds is a breadth-first search *)

Lemma fold_left_flat_map {A B C : Type} (f : A -> C -> A) (g : B -> list C)
  (l : list B) (a : A) :
  fold_left (fun a' y => fold_left f (g y) a') l a = fold_left f (flat_map g l) a.
Proof.
  revert a. induction l as [|y l IH]; intros a; simpl.
  - reflexivity.
  - rewrite fold_left_app. apply IH.
Qed.

(** What a run of [discover] over a list of neighbours leaves in the two
    sets. *)
Lemma discover_fold (ns : list Neighbor) (E L : JsSet) (x : string) :
  let st := fold_left discover ns (E, L) in
  (In x (fst st) <-> In x E \/ In x (map neighborId ns))
  /\ (In x (snd st) <-> In x L \/ (~ In x E /\ In x (map neighborId ns))).
Proof.
  revert E L. induction ns as [|n ns IH]; intros E L; simpl.
  - tauto.
  - destruct (set_has E (neighborId n)) eqn:Ehas.
    + apply set_has_In in Ehas. destruct (IH E L) as [H1 H2].
      rewrite H1, H2. split; [intuition congruence|].
      split; [tauto|]. intros [H|[Hn [<-|H]]]; tauto.
    + apply set_has_false in Ehas.
      destruct (IH (set_add (neighborId n) E) (set_add (neighborId n) L))
        as [H1 H2].
      rewrite H1, H2, !set_add_In. split; [intuition congruence|].
      split.
      * intros [[->|H]|[Hn H]]; [right; split; [exact Ehas | left; reflexivity]
                                | left; exact H | tauto].
      * destruct (string_dec x (neighborId n)) as [->|Hne]; [tauto|].
        intros [H|[Hn [H|H]]]; [tauto | congruence |].
        right. split; [|exact H]. intros [H'|H']; [congruence | tauto].
Qed.

Lemma limitedNeighbors_sound (this : NetworkBuilder) (maxN : Z)
  (allowed : list string) (y : string) (n : Neighbor) :
  In n (limitedNeighbors this maxN allowed y) ->
  In n (neighborsOf this y) /\ edgeAllowed allowed n = true.
Proof.
  unfold limitedNeighbors, edgeAllowed. intros H.
  assert (H' : In n (if (length allowed =? 0)%nat then neighborsOf this y
                     else filter (fun n => includesStr allowed (edgeType n))
                                 (neighborsOf this y))).
  { destruct (0 <? maxN); [apply slice0_In in H|]; exact H. }
  destruct (length allowed =? 0)%nat; [tauto|].
  apply filter_In in H'. exact H'.
Qed.

Lemma limitedNeighbors_uncapped (this : NetworkBuilder) (maxN : Z)
  (allowed : list string) (y : string) (n : Neighbor) :
  maxN <= 0 ->
  In n (neighborsOf this y) -> edgeAllowed allowed n = true ->
  In n (limitedNeighbors this maxN allowed y).
Proof.
  unfold limitedNeighbors, edgeAllowed. intros Hcap Hn Ha.
  destruct (Z.ltb_spec 0 maxN); [lia|].
  destruct (length allowed =? 0)%nat; [exact Hn|].
  apply filter_In. tauto.
Qed.

(** One layer: what is added to [expanded], and what the next layer is. *)
Lemma layer_fold (this : NetworkBuilder) (maxN : Z) (allowed : list string)
  (layer E : JsSet) (x : string) :
  let st := fold_left (visit this maxN allowed) layer (E, []) in
  let reached :=
    exists y n, In y layer /\ In n (limitedNeighbors this maxN allowed y)
                /\ neighborId n = x in
  (In x (fst st) <-> In x E \/ reached)
  /\ (In x (snd st) <-> ~ In x E /\ reached).
Proof.
  intros st reached. unfold st, visit.
  rewrite (fold_left_flat_map discover (limitedNeighbors this maxN allowed)).
  destruct (discover_fold (flat_map (limitedNeighbors this maxN allowed) layer)
                          E [] x) as [H1 H2].
  assert (Hr : In x (map neighborId
                      (flat_map (limitedNeighbors this maxN allowed) layer))
               <-> reached).
  { unfold reached. rewrite in_map_iff. split.
    - intros [n [Hid Hn]]. apply in_flat_map in Hn. destruct Hn as [y [Hy Hn]].
      exists y, n. tauto.
    - intros [y [n [Hy [Hn Hid]]]]. exists n. split; [exact Hid|].
      apply in_flat_map. exists y. tauto. }
  rewrite H1, H2, Hr. simpl. tauto.
Qed.

Lemma within_more (this : NetworkBuilder) (allowed : list string) (seeds : JsSet)
  (d d' : nat) (x : string) :
  within this allowed seeds d x -> (d <= d')%nat -> within this allowed seeds d' x.
Proof.
  intros H. revert d'. induction H as [d x Hx | d y n Hy IH Hn Ha]; intros d' Hle.
  - apply within_seed, Hx.
  - destruct d' as [|d']; [lia|].
    apply (within_step this allowed seeds d' y n);
      [apply IH; lia | exact Hn | exact Ha].
Qed.

Lemma within_seeds_incl (this : NetworkBuilder) (allowed : list string)
  (seeds seeds' : JsSet) (d : nat) (x : string) :
  incl seeds seeds' ->
  within this allowed seeds d x -> within this allowed seeds' d x.
Proof.
  intros Hincl H. induction H as [d x Hx | d y n Hy IH Hn Ha].
  - apply within_seed, Hincl, Hx.
  - apply (within_step this allowed seeds' d y n); assumption.
Qed.

Lemma expandLoop_sound (this : NetworkBuilder) (maxN : Z) (allowed : list string)
  (seeds : JsSet) (rounds j : nat) (E layer : JsSet) (x : string) :
  (forall y, In y E -> within this allowed seeds j y) ->
  incl layer E ->
  In x (expandLoop this maxN allowed rounds E layer) ->
  within this allowed seeds (j + rounds) x.
Proof.
  revert j E layer.
  induction rounds as [|rounds IH]; intros j E layer HE Hlayer; simpl.
  - intros Hx. apply (within_more this allowed seeds j); [apply HE, Hx | lia].
  - pose proof (layer_fold this maxN allowed layer E) as Hfold.
    destruct (fold_left (visit this maxN allowed) layer (E, [])) as [E' next].
    simpl in Hfold.
    assert (HE' : forall y, In y E' -> within this allowed seeds (S j) y).
    { intros y Hy. apply (Hfold y) in Hy.
      destruct Hy as [Hy|[z [n [Hz [Hn <-]]]]].
      - apply (within_more this allowed seeds j); [apply HE, Hy | lia].
      - apply limitedNeighbors_sound in Hn. destruct Hn as [Hn Ha].
        apply (within_step this allowed seeds j z n);
          [apply HE, Hlayer, Hz | exact Hn | exact Ha]. }
    destruct (length next =? 0)%nat.
    + intros Hx. apply (within_more this allowed seeds (S j));
        [apply HE', Hx | lia].
    + intros Hx. replace (j + S rounds)%nat with (S j + rounds)%nat by lia.
      apply (IH (S j) E' next); [exact HE' | | exact Hx].
      intros y Hy. apply (Hfold y). right. apply (Hfold y) in Hy. tauto.
Qed.

Lemma expandFromSeeds_within (this : NetworkBuilder) (seeds : JsSet)
  (depth maxN : Z) (allowed : list string) (x : string) :
  In x (expandFromSeeds this seeds depth maxN allowed) ->
  within this allowed seeds (Z.to_nat depth) x.
Proof.
  unfold expandFromSeeds. intros H.
  apply (expandLoop_sound this maxN allowed seeds (Z.to_nat depth) 0
                          (newSet seeds) (newSet seeds) x).
  - intros y Hy. apply within_seed, newSet_In, Hy.
  - apply incl_refl.
  - exact H.
Qed.

(** X8: whatever the neighbour cap, every member of the expanded set is a
    seed or is reached from a seed by at most [depth] steps along adjacency
    entries of an allowed edge type. *)
Theorem expandFromSeeds_sound (this : NetworkBuilder) (seeds : JsSet)
  (depth maxN : Z) (allowed : list string) (x : string) :
  In x (expandFromSeeds this seeds depth maxN allowed) ->
  within this allowed seeds (Z.to_nat depth) x.
Proof. apply expandFromSeeds_within. Qed.

Lemma expandFromSeeds_sound_witness :
  within starGraph [] ["B"] 2 "E".
Proof.
  apply (expandFromSeeds_sound starGraph ["B"] 2 0 [] "E").
  vm_compute. tauto.
Defined.

Lemma within_zero (this : NetworkBuilder) (allowed : list string) (seeds : JsSet)
  (x : string) :
  within this allowed seeds 0 x -> In x seeds.
Proof. intros H. inversion H. assumption. Qed.

(** A set that holds every allowed neighbour of its members holds all that
    can be reached from it. *)
Lemma within_closed (this : NetworkBuilder) (allowed : list string) (E : JsSet)
  (d : nat) (x : string) :
  (forall y n, In y E -> In n (neighborsOf this y) ->
               edgeAllowed allowed n = true -> In (neighborId n) E) ->
  within this allowed E d x -> In x E.
Proof.
  intros Hclosed H. induction H as [d x Hx | d y n Hy IH Hn Ha].
  - exact Hx.
  - apply (Hclosed y n); assumption.
Qed.

(** One step from [E] lands in [E'], so [d + 1] steps from [E] are [d]
    steps from [E']. *)
Lemma within_shift (this : NetworkBuilder) (allowed : list string) (E E' : JsSet)
  (d : nat) (x : string) :
  incl E E' ->
  (forall y n, In y E -> In n (neighborsOf this y) ->
               edgeAllowed allowed n = true -> In (neighborId n) E') ->
  within this allowed E (S d) x -> within this allowed E' d x.
Proof.
  intros Hincl Hstep. revert x. induction d as [|d IH]; intros x H.
  - inversion H as [? ? Hx | ? y n Hy Hn Ha]; subst.
    + apply within_seed, Hincl, Hx.
    + apply within_seed. apply (Hstep y n); [apply within_zero in Hy| |]; assumption.
  - inversion H as [? ? Hx | ? y n Hy Hn Ha]; subst.
    + apply within_seed, Hincl, Hx.
    + apply (within_step this allowed E' d y n); [apply IH, Hy | exact Hn | exact Ha].
Qed.

Lemma expandLoop_complete (this : NetworkBuilder) (maxN : Z)
  (allowed : list string) (rounds : nat) :
  maxN <= 0 ->
  forall (E layer : JsSet) (d : nat) (x : string),
    incl layer E ->
    (forall y n, In y E -> ~ In y layer -> In n (neighborsOf this y) ->
                 edgeAllowed allowed n = true -> In (neighborId n) E) ->
    (d <= rounds)%nat ->
    within this allowed E d x ->
    In x (expandLoop this maxN allowed rounds E layer).
Proof.
  intros Hcap. induction rounds as [|rounds IH];
    intros E layer d x Hlayer Hclosed Hd Hx; simpl.
  - assert (d = 0)%nat by lia. subst. apply within_zero in Hx. exact Hx.
  - pose proof (layer_fold this maxN allowed layer E) as Hfold.
    pose proof (expandLoop_grown this maxN allowed rounds) as Hgrown.
    destruct (fold_left (visit this maxN allowed) layer (E, [])) as [E' next].
    simpl in Hfold.
    assert (Hincl : incl E E').
    { intros y Hy. apply (Hfold y). left. exact Hy. }
    assert (Hstep : forall y n, In y E -> In n (neighborsOf this y) ->
                      edgeAllowed allowed n = true -> In (neighborId n) E').
    { intros y n Hy Hn Ha. destruct (in_dec string_dec y layer) as [Hin|Hout].
      - apply (Hfold (neighborId n)). right. exists y, n.
        split; [exact Hin|]. split; [|reflexivity].
        apply limitedNeighbors_uncapped; assumption.
      - apply Hincl. apply (Hclosed y n); assumption. }
    assert (Hnext : incl next E').
    { intros y Hy. apply (Hfold y). right. apply (Hfold y) in Hy. tauto. }
    assert (Hclosed' : forall y n, In y E' -> ~ In y next ->
                         In n (neighborsOf this y) ->
                         edgeAllowed allowed n = true -> In (neighborId n) E').
    { intros y n Hy Hout Hn Ha. apply (Hstep y n); [|exact Hn | exact Ha].
      apply (Hfold y) in Hy. destruct Hy as [Hy|Hy]; [exact Hy|].
      destruct (in_dec string_dec y E) as [HE|HE]; [exact HE|].
      exfalso. apply Hout. apply (Hfold y). tauto. }
    assert (Hx' : within this allowed E' (Nat.pred d) x).
    { destruct d as [|d]; simpl.
      - apply within_seed, Hincl. apply within_zero in Hx. exact Hx.
      - apply (within_shift this allowed E E'); assumption. }
    destruct (length next =? 0)%nat eqn:Elen.
    + apply (within_closed this allowed E' (Nat.pred d) x); [|exact Hx'].
      intros y n Hy. apply Hclosed'; [exact Hy|].
      destruct next; [tauto | discriminate].
    + apply (IH E' next (Nat.pred d) x); [exact Hnext | exact Hclosed' | lia | exact Hx'].
Qed.

(** X9: without a neighbour cap ([maxNeighborsPerNode <= 0]) the expanded
    set is exactly what a breadth-first search finds: the ids at most [depth]
    allowed adjacency steps away from a seed. *)
Theorem expandFromSeeds_uncapped (this : NetworkBuilder) (seeds : JsSet)
  (depth maxN : Z) (allowed : list string) (x : string) :
  maxN <= 0 ->
  (In x (expandFromSeeds this seeds depth maxN allowed)
   <-> within this allowed seeds (Z.to_nat depth) x).
Proof.
  intros Hcap. split; [apply expandFromSeeds_within|].
  intros H. unfold expandFromSeeds.
  apply (expandLoop_complete this maxN allowed (Z.to_nat depth) Hcap
           (newSet seeds) (newSet seeds) (Z.to_nat depth) x).
  - apply incl_refl.
  - intros y n Hy Hout. contradiction.
  - lia.
  - apply (within_seeds_incl this allowed seeds); [|exact H].
    intros y Hy. apply newSet_In, Hy.
Qed.

Lemma expandFromSeeds_uncapped_witness :
  In "E" (expandFromSeeds starGraph ["B"] 2 0 [])
  <-> within starGraph [] ["B"] 2 "E".
Proof.
  apply (expandFromSeeds_uncapped starGraph ["B"] 2 0 [] "E"). lia.
Defined.

(** X10: nothing is expanded from no seed. *)
Theorem expandFromSeeds_no_seed (this : NetworkBuilder) (depth maxN : Z)
  (allowed : list string) :
  expandFromSeeds this [] depth maxN allowed = [].
Proof.
  destruct (expandFromSeeds this [] depth maxN allowed) as [|x r] eqn:E;
    [reflexivity|].
  assert (H : In x (expandFromSeeds this [] depth maxN allowed))
    by (rewrite E; left; reflexivity).
  apply expandFromSeeds_within in H.
  apply (within_closed this allowed []) in H; [destruct H|].
  intros y n [].
Qed.


(** ** Ranking by degree *)

Lemma before_app {A : Type} (l1 l2 : list A) (x y : A) :
  In x l1 -> In y l2 -> before (l1 ++ l2) x y.
Proof.
  induction l1 as [|a l1 IH]; simpl; [tauto|].
  intros [->|Hx] Hy.
  - left. split; [reflexivity | apply in_or_app; right; exact Hy].
  - right. apply IH; assumption.
Qed.

Lemma before_filter {A : Type} (p : A -> bool) (l : list A) (x y : A) :
  before (filter p l) x y -> before l x y.
Proof.
  induction l as [|a l IH]; simpl; [tauto|].
  destruct (p a); simpl.
  - intros [[-> Hy]|H]; [left; split; [reflexivity|] | right; apply IH, H].
    apply filter_In in Hy. tauto.
  - intros H. right. apply IH, H.
Qed.

Section SortFacts.
Context {A : Type} (key : A -> Z).

Lemma insertDesc_In (a : A) (l : list A) (y : A) :
  In y (insertDesc key a l) <-> y = a \/ In y l.
Proof.
  split; intros H.
  - apply (Permutation_in _ (insertDesc_Permutation key a l)) in H.
    destruct H as [<-|H]; auto.
  - apply (Permutation_in _ (Permutation_sym (insertDesc_Permutation key a l))).
    destruct H as [->|H]; [left; reflexivity | right; exact H].
Qed.

(** Insertion goes past larger keys only: the sort is stable. *)
Lemma insertDesc_before (a : A) (l : list A) (x y : A) :
  key x = key y ->
  before (insertDesc key a l) x y -> (a = x /\ In y l) \/ before l x y.
Proof.
  intros Hkey. induction l as [|b r IH]; simpl.
  - intros [[_ []]|[]].
  - destruct (Z.ltb_spec (key a) (key b)) as [Hlt|Hge]; simpl.
    + intros [[-> Hy]|H].
      * apply insertDesc_In in Hy. destruct Hy as [->|Hy]; [lia|].
        right. left. split; [reflexivity | exact Hy].
      * destruct (IH H) as [[-> Hy]|H']; [left | right; right; exact H'].
        split; [reflexivity | right; exact Hy].
    + tauto.
Qed.

Lemma sortDesc_before (l : list A) (x y : A) :
  key x = key y -> before (sortDesc key l) x y -> before l x y.
Proof.
  intros Hkey. induction l as [|a l IH]; simpl; [tauto|].
  intros H. apply (insertDesc_before a _ x y Hkey) in H.
  destruct H as [[-> Hy]|H].
  - left. split; [reflexivity|].
    apply (Permutation_in _ (sortDesc_Permutation key l)), Hy.
  - right. apply IH, H.
Qed.

Lemma descending_cons (a : A) (l : list A) :
  (forall y, In y l -> key y <= key a) -> descending key l -> descending key (a :: l).
Proof.
  intros Ha Hl l1 l2 x y Heq Hx Hy. destruct l1 as [|b l1]; [destruct Hx|].
  simpl in Heq. injection Heq as <- ->.
  destruct Hx as [<-|Hx].
  - apply Ha. apply in_or_app. right. exact Hy.
  - apply (Hl l1 l2 x y eq_refl Hx Hy).
Qed.

Lemma descending_tail (a : A) (l : list A) :
  descending key (a :: l) ->
  (forall y, In y l -> key y <= key a) /\ descending key l.
Proof.
  intros H. split.
  - intros y Hy. apply (H [a] l a y eq_refl); [left; reflexivity | exact Hy].
  - intros l1 l2 x y -> Hx Hy.
    apply (H (a :: l1) l2 x y eq_refl); [right; exact Hx | exact Hy].
Qed.

Lemma insertDesc_descending (a : A) (l : list A) :
  descending key l -> descending key (insertDesc key a l).
Proof.
  induction l as [|b r IH]; intros H; simpl.
  - apply descending_cons; [intros y [] | exact H].
  - destruct (descending_tail b r H) as [Hb Hr].
    destruct (Z.ltb_spec (key a) (key b)) as [Hlt|Hge].
    + apply descending_cons; [|apply IH, Hr].
      intros y Hy. apply insertDesc_In in Hy.
      destruct Hy as [->|Hy]; [lia | apply Hb, Hy].
    + apply descending_cons; [|exact H].
      intros y [<-|Hy]; [exact Hge|]. specialize (Hb y Hy). lia.
Qed.

Lemma sortDesc_descending (l : list A) : descending key (sortDesc key l).
Proof.
  induction l as [|a l IH]; simpl.
  - intros l1 l2 x y Heq Hx. destruct l1; [destruct Hx | discriminate].
  - apply insertDesc_descending, IH.
Qed.

(** The first members of the sorted list against a member that is left
    out: its key is no larger, and on a tie it comes later in the input. *)
Lemma top_of_sorted (n : Z) (l : list A) (x y : A) :
  In x (slice0 n (sortDesc key l)) ->
  In y l -> ~ In y (slice0 n (sortDesc key l)) ->
  key y <= key x /\ (key y = key x -> before l x y).
Proof.
  unfold slice0.
  set (k := if n <? 0 then Z.to_nat (Z.of_nat (length (sortDesc key l)) + n)
            else Z.to_nat n).
  replace (if n <? 0
           then firstn (Z.to_nat (Z.of_nat (length (sortDesc key l)) + n))
                       (sortDesc key l)
           else firstn (Z.to_nat n) (sortDesc key l))
    with (firstn k (sortDesc key l)) by (unfold k; destruct (n <? 0); reflexivity).
  intros Hx Hy Hout.
  assert (Hy' : In y (skipn k (sortDesc key l))).
  { apply (Permutation_in _ (Permutation_sym (sortDesc_Permutation key l))) in Hy.
    rewrite <- (firstn_skipn k (sortDesc key l)) in Hy.
    apply in_app_or in Hy. tauto. }
  split.
  - apply (sortDesc_descending l _ _ x y
             (eq_sym (firstn_skipn k (sortDesc key l))) Hx Hy').
  - intros Hkey. apply sortDesc_before; [symmetry; exact Hkey|].
    rewrite <- (firstn_skipn k (sortDesc key l)). apply before_app; assumption.
Qed.

Lemma insertDesc_map {B : Type} (g : B -> A) (b : B) (l : list B) :
  insertDesc key (g b) (map g l)
  = map g (insertDesc (fun b' => key (g b')) b l).
Proof.
  induction l as [|c l IH]; simpl; [reflexivity|].
  destruct (key (g b) <? key (g c)); simpl; [rewrite IH|]; reflexivity.
Qed.

Lemma sortDesc_map {B : Type} (g : B -> A) (l : list B) :
  sortDesc key (map g l) = map g (sortDesc (fun b => key (g b)) l).
Proof.
  induction l as [|b l IH]; simpl; [reflexivity|].
  rewrite IH. apply insertDesc_map.
Qed.
End SortFacts.

Lemma map_set_fresh {V : Type} (k : string) (v : V) (m : JsMap V) :
  map_has m k = false -> map_set k v m = m ++ [(k, v)].
Proof.
  unfold map_has. induction m as [|[k0 v0] r IH]; simpl; [reflexivity|].
  destruct (String.eqb k k0); [discriminate|].
  intros H. rewrite IH by exact H. reflexivity.
Qed.

Lemma degree_map_entries (f : string -> Z) (ids : list string) (m : JsMap Z) :
  NoDup (map_keys m ++ ids) ->
  fold_left (fun m i => map_set i (f i) m) ids m
  = m ++ map (fun i => (i, f i)) ids.
Proof.
  revert m. induction ids as [|i ids IH]; intros m Hnd; simpl.
  - symmetry. apply app_nil_r.
  - assert (Hi : map_has m i = false).
    { destruct (map_has m i) eqn:E; [|reflexivity].
      apply map_has_keys in E. apply NoDup_remove_2 in Hnd.
      exfalso. apply Hnd. apply in_or_app. left. exact E. }
    rewrite (map_set_fresh i (f i) m Hi), IH.
    + rewrite <- app_assoc. reflexivity.
    + unfold map_keys in *. rewrite map_app, <- app_assoc. exact Hnd.
Qed.

(** On a set of ids [selectTopNodesByDegree] is the stable descending sort by
    global degree, cut after [maxNodes] ids. *)
Lemma selectTopNodesByDegree_sorted (this : NetworkBuilder) (ids : JsSet)
  (maxNodes : Z) :
  NoDup ids ->
  selectTopNodesByDegree this ids maxNodes
  = slice0 maxNodes (sortDesc (globalDegree this) ids).
Proof.
  intros Hnd. unfold selectTopNodesByDegree.
  change (fun (m : JsMap Z) (nodeId : string) =>
            map_set nodeId (Z.of_nat (length (neighborsOf this nodeId))) m)
    with (fun (m : JsMap Z) (i : string) => map_set i (globalDegree this i) m).
  rewrite (degree_map_entries (globalDegree this) ids []) by exact Hnd.
  simpl. rewrite (sortDesc_map snd (fun i => (i, globalDegree this i))).
  rewrite slice0_map, map_map. simpl. rewrite map_id. reflexivity.
Qed.

(** X11: on a set of ids and for [maxNodes >= 0], [selectTopNodesByDegree]
    returns [min(maxNodes, size)] ids, all different and all from the set. *)
Theorem selectTopNodesByDegree_size (this : NetworkBuilder) (ids : JsSet)
  (maxNodes : Z) :
  NoDup ids -> 0 <= maxNodes ->
  length (selectTopNodesByDegree this ids maxNodes)
  = Nat.min (Z.to_nat maxNodes) (length ids)
  /\ NoDup (selectTopNodesByDegree this ids maxNodes)
  /\ incl (selectTopNodesByDegree this ids maxNodes) ids.
Proof.
  intros Hnd Hcap.
  destruct (selectTopNodesByDegree_slice this ids maxNodes Hnd) as [p [Hp ->]].
  rewrite slice0_length by exact Hcap. rewrite (Permutation_length Hp).
  split; [reflexivity|]. split.
  - apply slice0_NoDup. apply (Permutation_NoDup (Permutation_sym Hp) Hnd).
  - intros x Hx. apply slice0_In in Hx. apply (Permutation_in _ Hp Hx).
Qed.

Lemma selectTopNodesByDegree_size_witness :
  length (selectTopNodesByDegree starGraph ["B"; "A"; "C"] 2)
  = Nat.min (Z.to_nat 2) (length ["B"; "A"; "C"])
  /\ NoDup (selectTopNodesByDegree starGraph ["B"; "A"; "C"] 2)
  /\ incl (selectTopNodesByDegree starGraph ["B"; "A"; "C"] 2) ["B"; "A"; "C"].
Proof.
  apply (selectTopNodesByDegree_size starGraph ["B"; "A"; "C"] 2).
  - repeat constructor; simpl; intuition discriminate.
  - lia.
Defined.

(** X12: [selectTopNodesByDegree] keeps the ids of highest global degree: an
    id of the set that is left out has a degree no larger than that of any id
    returned, and where the two degrees are equal the id returned comes
    earlier in the iteration order of the set. *)
Theorem selectTopNodesByDegree_keeps_highest (this : NetworkBuilder) (ids : JsSet)
  (maxNodes : Z) (x y : string) :
  NoDup ids ->
  In x (selectTopNodesByDegree this ids maxNodes) ->
  In y ids -> ~ In y (selectTopNodesByDegree this ids maxNodes) ->
  globalDegree this y <= globalDegree this x
  /\ (globalDegree this y = globalDegree this x -> before ids x y).
Proof.
  intros Hnd. rewrite (selectTopNodesByDegree_sorted this ids maxNodes Hnd).
  apply top_of_sorted.
Qed.

Lemma selectTopNodesByDegree_keeps_highest_witness :
  globalDegree starGraph "C" <= globalDegree starGraph "B"
  /\ (globalDegree starGraph "C" = globalDegree starGraph "B"
      -> before ["B"; "A"; "C"] "B" "C").
Proof.
  apply (selectTopNodesByDegree_keeps_highest starGraph ["B"; "A"; "C"] 2 "B" "C").
  - repeat constructor; simpl; intuition discriminate.
  - vm_compute. tauto.
  - simpl. tauto.
  - vm_compute. intros [H|[H|[]]]; discriminate.
Defined.

Lemma localDegree_nonneg (ls : list GraphLink) (k : string) : 0 <= localDegree ls k.
Proof. unfold localDegree. lia. Qed.

Lemma localDegree_cons (l : GraphLink) (ls : list GraphLink) (k : string) :
  localDegree (l :: ls) k
  = localDegree ls k
    + (if String.eqb k (sourceId l) then 1 else 0)
    + (if String.eqb k (targetId l) then 1 else 0).
Proof.
  unfold localDegree. simpl.
  destruct (String.eqb k (sourceId l)), (String.eqb k (targetId l)); simpl length; lia.
Qed.

Lemma localDegree_pos (ls : list GraphLink) (k : string) :
  existsb (isEndOf k) ls = true <-> 0 < localDegree ls k.
Proof.
  induction ls as [|l ls IH].
  - simpl. unfold localDegree. simpl. split; [discriminate | lia].
  - rewrite localDegree_cons. simpl existsb. rewrite orb_true_iff, IH.
    unfold isEndOf. pose proof (localDegree_nonneg ls k).
    destruct (String.eqb k (sourceId l)), (String.eqb k (targetId l)); simpl;
      split; intros H1;
      first [ lia | left; reflexivity | right; lia
            | destruct H1 as [H1|H1]; [discriminate | lia] ].
Qed.

(** X13: the subgraph ranking of step 6 keeps the ids of highest degree
    within the candidate links: a connected candidate that is left out has a
    degree no larger than that of any id kept, and where the two degrees are
    equal the id kept comes earlier in the iteration order of the set. *)
Theorem topBySubgraphDegree_keeps_highest (ls : list GraphLink) (ids : JsSet)
  (maxNodes : Z) (x y : string) :
  In x (topBySubgraphDegree ls ids maxNodes) ->
  In y ids -> ~ In y (topBySubgraphDegree ls ids maxNodes) ->
  localDegree ls y <= localDegree ls x
  /\ (localDegree ls y = localDegree ls x -> before ids x y).
Proof.
  unfold topBySubgraphDegree. intros Hx Hy Hout.
  assert (Hxpos : 0 < localDegree ls x).
  { apply slice0_In in Hx.
    apply (Permutation_in _ (sortDesc_Permutation _ _)) in Hx.
    apply filter_In in Hx. destruct Hx as [_ Hx].
    rewrite map_has_countDegrees in Hx. apply localDegree_pos, Hx. }
  destruct (map_has (countDegrees ls) y) eqn:Ey.
  - destruct (top_of_sorted (fun i => orNum (map_get (countDegrees ls) i) 0)
                maxNodes (filter (map_has (countDegrees ls)) ids) x y Hx)
      as [Hle Htie]; [apply filter_In; tauto | exact Hout |].
    rewrite !countDegrees_get in Hle, Htie. split; [exact Hle|].
    intros H. apply (before_filter (map_has (countDegrees ls))), Htie, H.
  - rewrite map_has_countDegrees in Ey.
    assert (Hy0 : ~ 0 < localDegree ls y).
    { intros H. apply localDegree_pos in H. congruence. }
    pose proof (localDegree_nonneg ls y). split; lia.
Qed.

Lemma topBySubgraphDegree_keeps_highest_witness :
  localDegree (allLinks starGraph) "C" <= localDegree (allLinks starGraph) "A"
  /\ (localDegree (allLinks starGraph) "C" = localDegree (allLinks starGraph) "A"
      -> before ["B"; "A"; "C"] "A" "C").
Proof.
  apply (topBySubgraphDegree_keeps_highest
           (allLinks starGraph) ["B"; "A"; "C"] 2 "A" "C").
  - vm_compute. tauto.
  - simpl. tauto.
  - vm_compute. intros [H|[H|[]]]; discriminate.
Defined.


(** ** The returned subgraph *)

Lemma entries_ids (store : list GraphNode) (m : JsMap NodeRef) :
  (forall k r, In (k, r) m -> exists n, store !! r = Some n /\ id n = k) ->
  map id (nodesAt store (map_values m)) = map_keys m.
Proof.
  unfold nodesAt, map_values, map_keys.
  induction m as [|[k r] m IH]; intros H; simpl; [reflexivity|].
  destruct (H k r (or_introl eq_refl)) as [n [-> <-]]. simpl.
  f_equal. apply IH. intros k' r' Hin. apply H. right. exact Hin.
Qed.

Lemma nodeMap_ids (store : list GraphNode) (ids : JsSet) :
  map id (nodesAt store (map_values (nodeMap store ids)))
  = map_keys (nodeMap store ids).
Proof.
  apply entries_ids. intros k r H.
  destruct (nodeMap_sound store ids k r H) as [n [Hn [Hid _]]].
  exists n. tauto.
Qed.

Lemma assemble_nodes_links (this : NetworkBuilder) (st : NetworkBuilderState)
  (mode : RankingMode) (searched : bool) (seeds candidates0 : JsSet) :
  let g := snd (assemble this st mode searched seeds candidates0) in
  let selected := nodeMap (allNodes this)
                    (finalAfter this st mode searched seeds candidates0) in
  nodes g = map_values selected
  /\ links g
     = filter (bothIn selected)
         (candidateLinksOf this st
            (candidateMapAfter this st searched seeds candidates0))
  /\ truncated g
     = (Z.of_nat (length (connectedAfter this st searched seeds candidates0))
        >? maxTotalNodes st)
  /\ matchedCount g
     = Z.of_nat (length (connectedAfter this st searched seeds candidates0)).
Proof. repeat split; reflexivity. Qed.

Lemma assemble_shown_ids (this : NetworkBuilder) (st : NetworkBuilderState)
  (mode : RankingMode) (searched : bool) (seeds candidates0 : JsSet) :
  let res := assemble this st mode searched seeds candidates0 in
  map id (nodesOf (fst res) (snd res))
  = map_keys (nodeMap (allNodes this)
                      (finalAfter this st mode searched seeds candidates0)).
Proof.
  intros res. unfold res. rewrite assemble_shown, map_map.
  destruct (assemble_nodes_links this st mode searched seeds candidates0)
    as [Hnodes _].
  rewrite Hnodes. apply nodeMap_ids.
Qed.

Lemma finalAfter_connected (this : NetworkBuilder) (st : NetworkBuilderState)
  (mode : RankingMode) (searched : bool) (seeds candidates0 : JsSet) :
  exists p, Permutation p (connectedAfter this st searched seeds candidates0)
    /\ finalAfter this st mode searched seeds candidates0
       = if Z.of_nat (length (connectedAfter this st searched seeds candidates0))
            >? maxTotalNodes st
         then slice0 (maxTotalNodes st) p
         else p.
Proof.
  unfold finalAfter.
  destruct (Z.of_nat (length (connectedAfter this st searched seeds candidates0))
            >? maxTotalNodes st).
  - apply finalNodeIds_truncated; [apply connected_NoDup|].
    intros k Hk. apply (connectedAfter_ends this st searched seeds candidates0 k Hk).
  - exists (connectedAfter this st searched seeds candidates0).
    split; reflexivity.
Qed.

Lemma finalAfter_facts (this : NetworkBuilder) (st : NetworkBuilderState)
  (mode : RankingMode) (searched : bool) (seeds candidates0 : JsSet) :
  let final := finalAfter this st mode searched seeds candidates0 in
  let connected := connectedAfter this st searched seeds candidates0 in
  NoDup final /\ incl final connected
  /\ (length final <= length connected)%nat
  /\ (0 <= maxTotalNodes st -> Z.of_nat (length final) <= maxTotalNodes st).
Proof.
  intros final connected. unfold final.
  destruct (finalAfter_connected this st mode searched seeds candidates0)
    as [p [Hp ->]]. fold connected in Hp |- *.
  assert (Hnd : NoDup p)
    by (apply (Permutation_NoDup (Permutation_sym Hp)), connected_NoDup).
  rewrite <- (Permutation_length Hp).
  destruct (Z.gtb_spec (Z.of_nat (length p)) (maxTotalNodes st)) as [Hgt|Hle].
  - split; [apply slice0_NoDup, Hnd|]. split.
    + intros k Hk. apply slice0_In in Hk. apply (Permutation_in _ Hp Hk).
    + split.
      * unfold slice0. destruct (maxTotalNodes st <? 0); rewrite length_firstn; lia.
      * intros Hcap. rewrite slice0_length by exact Hcap. lia.
  - split; [exact Hnd|]. split; [intros k Hk; apply (Permutation_in _ Hp Hk)|].
    split; [lia|]. intros _. exact Hle.
Qed.

(** The keys of the selected map are the final ids. *)
Lemma selected_keys (this : NetworkBuilder) (st : NetworkBuilderState)
  (mode : RankingMode) (searched : bool) (seeds candidates0 : JsSet) (k : string) :
  In k (map_keys (nodeMap (allNodes this)
                          (finalAfter this st mode searched seeds candidates0)))
  <-> In k (finalAfter this st mode searched seeds candidates0).
Proof.
  rewrite <- map_has_keys, nodeMap_has. split; [tauto|]. intros Hk.
  split; [exact Hk|].
  destruct (finalAfter_facts this st mode searched seeds candidates0)
    as [_ [Hincl _]].
  apply (connectedAfter_in_store this st searched seeds candidates0), Hincl, Hk.
Qed.

Lemma assemble_induced (this : NetworkBuilder) (st : NetworkBuilderState)
  (mode : RankingMode) (searched : bool) (seeds candidates0 : JsSet)
  (l : GraphLink) :
  let res := assemble this st mode searched seeds candidates0 in
  let shown := map id (nodesOf (fst res) (snd res)) in
  In l (links (snd res))
  <-> In l (allLinks this) /\ edgeTypeMatch st l = true
      /\ In (sourceId l) shown /\ In (targetId l) shown.
Proof.
  intros res shown. unfold shown, res. rewrite assemble_shown_ids.
  destruct (assemble_nodes_links this st mode searched seeds candidates0)
    as [_ [-> _]].
  rewrite filter_In. unfold candidateLinksOf. rewrite filter_In.
  unfold bothIn. rewrite !andb_true_iff, !map_has_keys.
  split; [tauto|]. intros (Hl & Ht & Hs & Htg).
  split; [|tauto]. split; [exact Hl|]. split; [exact Ht|].
  destruct (finalAfter_facts this st mode searched seeds candidates0)
    as [_ [Hincl _]].
  apply selected_keys in Hs. apply selected_keys in Htg.
  apply Hincl, connectedAfter_ends in Hs. apply Hincl, connectedAfter_ends in Htg.
  rewrite <- !map_has_keys. unfold candidateMapAfter. tauto.
Qed.

(** X14: the links a query returns are exactly the links of the base graph
    that have an allowed edge type and join two returned nodes. *)
Theorem buildNetwork_induced_links (this : NetworkBuilder)
  (st : NetworkBuilderState) (logic : Logic) (mode : RankingMode) (l : GraphLink) :
  let res := buildNetwork this st logic mode in
  let shown := map id (nodesOf (fst res) (snd res)) in
  In l (links (snd res))
  <-> In l (allLinks this) /\ edgeTypeMatch st l = true
      /\ In (sourceId l) shown /\ In (targetId l) shown.
Proof.
  unfold buildNetwork.
  destruct ((0 <? length (searchTerms st))%nat && (0 <? length (searchFields st))%nat).
  - destruct (length (searchNodes this (searchTerms st) (searchFields st) logic) =? 0)%nat.
    + simpl. tauto.
    + apply assemble_induced.
  - apply assemble_induced.
Qed.

(** X15: the returned nodes have pairwise different ids, each the id of a
    base node, whether or not the base node list repeats an id. *)
Theorem buildNetwork_distinct_ids (this : NetworkBuilder)
  (st : NetworkBuilderState) (logic : Logic) (mode : RankingMode) :
  let res := buildNetwork this st logic mode in
  NoDup (map id (nodesOf (fst res) (snd res)))
  /\ incl (map id (nodesOf (fst res) (snd res))) (map id (allNodes this)).
Proof.
  assert (H : forall searched seeds candidates0,
    let res := assemble this st mode searched seeds candidates0 in
    NoDup (map id (nodesOf (fst res) (snd res)))
    /\ incl (map id (nodesOf (fst res) (snd res))) (map id (allNodes this))).
  { intros searched seeds candidates0 res. unfold res.
    rewrite assemble_shown_ids. split; [apply nodeMap_keys_NoDup|].
    intros k Hk. apply map_has_keys, nodeMap_has in Hk.
    destruct Hk as [_ [n [Hn <-]]]. apply in_map, Hn. }
  unfold buildNetwork.
  destruct ((0 <? length (searchTerms st))%nat && (0 <? length (searchFields st))%nat).
  - destruct (length (searchNodes this (searchTerms st) (searchFields st) logic) =? 0)%nat.
    + simpl. split; [constructor | intros k []].
    + apply H.
  - apply H.
Qed.

(** ** The node cap *)

Lemma assemble_counts (this : NetworkBuilder) (st : NetworkBuilderState)
  (mode : RankingMode) (searched : bool) (seeds candidates0 : JsSet) :
  let g := snd (assemble this st mode searched seeds candidates0) in
  Z.of_nat (length (nodes g)) <= matchedCount g
  /\ matchedCount g <= Z.of_nat (length (allNodes this))
  /\ (0 <= maxTotalNodes st -> Z.of_nat (length (nodes g)) <= maxTotalNodes st).
Proof.
  intros g. unfold g.
  destruct (assemble_nodes_links this st mode searched seeds candidates0)
    as (-> & _ & _ & ->).
  destruct (finalAfter_facts this st mode searched seeds candidates0)
    as (Hnd & Hincl & Hlen & Hcap).
  rewrite nodeMap_size; [|exact Hnd|].
  - split; [lia|]. split; [|exact Hcap].
    apply inj_le. rewrite <- (length_map id (allNodes this)).
    apply NoDup_incl_length; [apply connected_NoDup|].
    intros k Hk.
    destruct (connectedAfter_in_store this st searched seeds candidates0 k Hk)
      as [n [Hn <-]].
    apply in_map, Hn.
  - intros k Hk.
    apply (connectedAfter_in_store this st searched seeds candidates0), Hincl, Hk.
Qed.

(** X16: a query never returns more nodes than it reports as matched, and
    never reports more matches than there are base nodes. *)
Theorem buildNetwork_counts (this : NetworkBuilder) (st : NetworkBuilderState)
  (logic : Logic) (mode : RankingMode) :
  let g := snd (buildNetwork this st logic mode) in
  Z.of_nat (length (nodes g)) <= matchedCount g
  /\ matchedCount g <= Z.of_nat (length (allNodes this)).
Proof.
  unfold buildNetwork.
  destruct ((0 <? length (searchTerms st))%nat && (0 <? length (searchFields st))%nat).
  - destruct (length (searchNodes this (searchTerms st) (searchFields st) logic) =? 0)%nat.
    + simpl. lia.
    + destruct (assemble_counts this st mode true
                  (searchNodes this (searchTerms st) (searchFields st) logic)
                  (if 0 <? expansionDepth st
                   then expandFromSeeds this
                          (searchNodes this (searchTerms st) (searchFields st) logic)
                          (expansionDepth st) (maxNodesPerExpansion st)
                          (allowedEdgeTypes st)
                   else newSet (searchNodes this (searchTerms st)
                                            (searchFields st) logic)))
        as (H1 & H2 & _).
      split; assumption.
  - destruct (assemble_counts this st mode false [] (newSet (map id (allNodes this))))
      as (H1 & H2 & _).
    split; assumption.
Qed.

(** X17: for a cap that is not negative, a query returns at most
    [maxTotalNodes] nodes, whether it truncates or not. *)
Theorem buildNetwork_respects_cap (this : NetworkBuilder)
  (st : NetworkBuilderState) (logic : Logic) (mode : RankingMode) :
  0 <= maxTotalNodes st ->
  Z.of_nat (length (nodesOf (fst (buildNetwork this st logic mode))
                            (snd (buildNetwork this st logic mode))))
  <= maxTotalNodes st.
Proof.
  intros Hcap.
  assert (H : forall searched seeds candidates0,
    let res := assemble this st mode searched seeds candidates0 in
    Z.of_nat (length (nodesOf (fst res) (snd res))) <= maxTotalNodes st).
  { intros searched seeds candidates0 res.
    rewrite <- (length_map id). unfold res. rewrite assemble_shown_ids.
    rewrite <- map_values_length.
    destruct (assemble_counts this st mode searched seeds candidates0)
      as (_ & _ & H).
    destruct (assemble_nodes_links this st mode searched seeds candidates0)
      as (Hn & _). rewrite Hn in H. apply H, Hcap. }
  unfold buildNetwork.
  destruct ((0 <? length (searchTerms st))%nat && (0 <? length (searchFields st))%nat).
  - destruct (length (searchNodes this (searchTerms st) (searchFields st) logic) =? 0)%nat.
    + simpl. exact Hcap.
    + apply H.
  - apply H.
Qed.

Lemma buildNetwork_respects_cap_witness :
  Z.of_nat (length (nodesOf (fst (buildNetwork starGraph (showAll 3) OR subgraph))
                            (snd (buildNetwork starGraph (showAll 3) OR subgraph))))
  <= maxTotalNodes (showAll 3).
Proof.
  apply (buildNetwork_respects_cap starGraph (showAll 3) OR subgraph).
  simpl. lia.
Defined.

(** ** Queries without a search *)

(** X18: when the term list or the field list is empty no search is made,
    and the result depends on the filter state through [allowedEdgeTypes] and
    [maxTotalNodes] only: the type filter, the expansion settings and the
    search logic play no part. *)
Theorem buildNetwork_without_search (this : NetworkBuilder)
  (a b : NetworkBuilderState) (logic logic' : Logic) (mode : RankingMode) :
  searchTerms a = [] \/ searchFields a = [] ->
  searchTerms b = [] \/ searchFields b = [] ->
  allowedEdgeTypes a = allowedEdgeTypes b ->
  maxTotalNodes a = maxTotalNodes b ->
  buildNetwork this a logic mode = buildNetwork this b logic' mode.
Proof.
  intros Ha Hb Hedges Hcap. unfold buildNetwork.
  assert (Ea : (0 <? length (searchTerms a))%nat && (0 <? length (searchFields a))%nat
               = false).
  { destruct Ha as [-> | ->]; [reflexivity | apply andb_false_r]. }
  assert (Eb : (0 <? length (searchTerms b))%nat && (0 <? length (searchFields b))%nat
               = false).
  { destruct Hb as [-> | ->]; [reflexivity | apply andb_false_r]. }
  rewrite Ea, Eb. unfold assemble, candidateNodeIdsOf, candidateLinksOf,
    edgeTypeMatch, finalNodeIdsOf. simpl. rewrite Hedges, Hcap. reflexivity.
Qed.

Lemma buildNetwork_without_search_witness :
  buildNetwork starGraph (mkState [] ["text"] ["entity"] [] [] [] [] 2 1 3)
               AND global
  = buildNetwork starGraph (mkState ["income"] [] [] [] [26] [] ["A"] 0 0 3)
                 OR global.
Proof.
  apply buildNetwork_without_search; simpl; auto.
Defined.

(** ** The type filter acts on seeds only *)

(** X19: step 2 removes a candidate only if it is a seed whose node (the
    first one with that id) has a type outside [allowedNodeTypes]; a candidate
    found by expansion alone is kept whatever its type. *)
Theorem filterSeeds_keeps_expansion (store : list GraphNode)
  (types : list string) (seeds candidates : JsSet) (k : string) :
  NoDup (filterSeeds store types seeds candidates)
  /\ (In k (filterSeeds store types seeds candidates)
      <-> In k candidates
          /\ (~ In k seeds
              \/ exists node, findNode store k = Some node
                              /\ In (node_type node) types)).
Proof.
  unfold filterSeeds. split; [apply newSet_NoDup|].
  rewrite newSet_In, filter_In, orb_true_iff, negb_true_iff.
  rewrite set_has_false, set_has_In.
  unfold seedsAfterTypeFilter. rewrite newSet_In, filter_In.
  assert (Hty : (match findNode store k with
                 | Some node => includesStr types (node_type node)
                 | None => false
                 end = true)
                <-> exists node, findNode store k = Some node
                                 /\ In (node_type node) types).
  { destruct (findNode store k) as [node|]; split.
    - intros H. exists node. split; [reflexivity | apply includesStr_In, H].
    - intros [node' [[= <-] H]]. apply includesStr_In, H.
    - discriminate.
    - intros [node' [[=] _]]. }
  rewrite Hty. destruct (in_dec string_dec k seeds); tauto.
Qed.

(** ** Results of a search stay within the expansion *)

(** Reduces a goal about [buildNetwork] to the early return, left as a goal,
    and to the lemma [H] about [assemble]. *)
Ltac by_assemble H :=
  unfold buildNetwork;
  destruct ((0 <? length (searchTerms _))%nat && (0 <? length (searchFields _))%nat);
  [ destruct (length (searchNodes _ _ _ _) =? 0)%nat; [simpl | apply H]
  | apply H ].

Lemma candidateNodeIdsOf_incl (store : list GraphNode) (st : NetworkBuilderState)
  (searched : bool) (seeds candidates0 : JsSet) :
  incl (candidateNodeIdsOf store st searched seeds candidates0) candidates0.
Proof.
  unfold candidateNodeIdsOf.
  destruct (searched && (0 <? length (allowedNodeTypes st))%nat);
    [|apply incl_refl].
  intros k Hk. unfold filterSeeds in Hk. apply newSet_In, filter_In in Hk. tauto.
Qed.

Lemma assemble_shown_in_candidates (this : NetworkBuilder)
  (st : NetworkBuilderState) (mode : RankingMode) (searched : bool)
  (seeds candidates0 : JsSet) (n : GraphNode) :
  let res := assemble this st mode searched seeds candidates0 in
  In n (nodesOf (fst res) (snd res)) -> In (id n) candidates0.
Proof.
  intros res Hn. apply (in_map id) in Hn. unfold res in Hn.
  rewrite assemble_shown_ids in Hn. apply selected_keys in Hn.
  destruct (finalAfter_facts this st mode searched seeds candidates0)
    as [_ [Hincl _]].
  apply Hincl, connectedAfter_ends in Hn. destruct Hn as [Hn _].
  apply nodeMap_has in Hn. destruct Hn as [Hn _].
  apply (candidateNodeIdsOf_incl _ _ _ _ _ _ Hn).
Qed.

(** X20: when a search is made, every returned node is a member of the
    expansion of the search result (the search result itself for a depth that
    is not positive). *)
Theorem buildNetwork_within_expansion (this : NetworkBuilder)
  (st : NetworkBuilderState) (logic : Logic) (mode : RankingMode) (n : GraphNode) :
  searchTerms st <> [] -> searchFields st <> [] ->
  In n (nodesOf (fst (buildNetwork this st logic mode))
                (snd (buildNetwork this st logic mode))) ->
  In (id n)
     (expandFromSeeds this
        (searchNodes this (searchTerms st) (searchFields st) logic)
        (expansionDepth st) (maxNodesPerExpansion st) (allowedEdgeTypes st)).
Proof.
  intros Hterms Hfields. unfold buildNetwork.
  destruct (searchTerms st) as [|t terms]; [congruence|].
  destruct (searchFields st) as [|f fields]; [congruence|].
  simpl andb. cbv iota.
  destruct (length (searchNodes this (t :: terms) (f :: fields) logic) =? 0)%nat.
  - simpl. tauto.
  - intros Hn. apply assemble_shown_in_candidates in Hn.
    destruct (Z.ltb_spec 0 (expansionDepth st)) as [Hpos|Hnonpos]; [exact Hn|].
    unfold expandFromSeeds.
    replace (Z.to_nat (expansionDepth st)) with 0%nat by lia.
    exact Hn.
Qed.

Lemma buildNetwork_within_expansion_witness :
  In (id starA)
     (expandFromSeeds starGraph (searchNodes starGraph ["b"] ["id"] OR) 1 0 []).
Proof.
  apply (buildNetwork_within_expansion
           starGraph (mkState ["b"] ["id"] [] [] [] [] [] 1 0 10) OR global
           (mkNode "A" "A" (Some 1) (Some 1) (Some "rgb(65, 55, 143)")
                   (Some "rgb(65, 55, 143)") "section" None None None None None
                   VUndefined None None None [])).
  - discriminate.
  - discriminate.
  - vm_compute. left. reflexivity.
Defined.

(** ** Degrees of the returned subgraph *)

Lemma sumOf_plus {A : Type} (f g : A -> Z) (l : list A) :
  sumOf (fun x => f x + g x) l = sumOf f l + sumOf g l.
Proof. induction l as [|x l IH]; simpl; lia. Qed.

Lemma sumOf_ext {A : Type} (f g : A -> Z) (l : list A) :
  (forall x, f x = g x) -> sumOf f l = sumOf g l.
Proof. intros H. induction l as [|x l IH]; simpl; [reflexivity|]. rewrite H, IH. reflexivity. Qed.

Lemma sumOf_map {A B : Type} (f : B -> Z) (g : A -> B) (l : list A) :
  sumOf f (map g l) = sumOf (fun x => f (g x)) l.
Proof. induction l as [|x l IH]; simpl; [reflexivity|]. rewrite IH. reflexivity. Qed.

Lemma sumOf_indicator (a : string) (ks : list string) :
  NoDup ks ->
  sumOf (fun k => if String.eqb k a then 1 else 0) ks
  = if in_dec string_dec a ks then 1 else 0.
Proof.
  induction ks as [|k ks IH]; intros Hnd; simpl.
  - reflexivity.
  - inversion Hnd as [|? ? Hout Hnd']; subst. rewrite (IH Hnd').
    destruct (String.eqb_spec k a) as [->|Hne].
    + destruct (string_dec a a); [|congruence].
      destruct (in_dec string_dec a ks); [contradiction | reflexivity].
    + destruct (string_dec k a); [congruence|].
      destruct (in_dec string_dec a ks); reflexivity.
Qed.

(** Every link has two ends: over a set of ids that holds the ends of all
    links, the degrees add up to twice the number of links. *)
Lemma degree_sum (ks : list string) (ls : list GraphLink) :
  NoDup ks ->
  (forall l, In l ls -> In (sourceId l) ks /\ In (targetId l) ks) ->
  sumOf (localDegree ls) ks = 2 * Z.of_nat (length ls).
Proof.
  intros Hnd. induction ls as [|l ls IH]; intros Hends.
  - rewrite (sumOf_ext _ (fun _ => 0)) by reflexivity.
    clear. unfold sumOf. induction ks as [|k ks IH]; simpl in *; lia.
  - rewrite (sumOf_ext _ _ ks (localDegree_cons l ls)).
    rewrite !sumOf_plus, IH by (intros l' Hl'; apply Hends; right; exact Hl').
    rewrite !(sumOf_indicator _ ks Hnd).
    destruct (Hends l (or_introl eq_refl)) as [Hs Ht].
    destruct (in_dec string_dec (sourceId l) ks); [|contradiction].
    destruct (in_dec string_dec (targetId l) ks); [|contradiction].
    simpl length. lia.
Qed.

Lemma assemble_degree_sum (this : NetworkBuilder) (st : NetworkBuilderState)
  (mode : RankingMode) (searched : bool) (seeds candidates0 : JsSet) :
  let res := assemble this st mode searched seeds candidates0 in
  sumOf (fun n => localDegree (links (snd res)) (id n)) (nodesOf (fst res) (snd res))
  = 2 * Z.of_nat (length (links (snd res))).
Proof.
  intros res. rewrite <- (sumOf_map (localDegree (links (snd res))) id).
  apply degree_sum.
  - unfold res. rewrite assemble_shown_ids. apply nodeMap_keys_NoDup.
  - intros l Hl. apply assemble_induced in Hl.
    destruct Hl as (_ & _ & Hs & Ht). split; [exact Hs | exact Ht].
Qed.

(** X21: in every result the degrees of the returned nodes within the
    returned links add up to twice the number of returned links. *)
Theorem buildNetwork_degree_sum (this : NetworkBuilder) (st : NetworkBuilderState)
  (logic : Logic) (mode : RankingMode) :
  let res := buildNetwork this st logic mode in
  sumOf (fun n => localDegree (links (snd res)) (id n)) (nodesOf (fst res) (snd res))
  = 2 * Z.of_nat (length (links (snd res))).
Proof.
  by_assemble assemble_degree_sum. reflexivity.
Qed.

Lemma maxOf_bounds (vals : list Z) (v : Z) :
  1 <= maxOf vals /\ (In v vals -> v <= maxOf vals).
Proof.
  unfold maxOf. induction vals as [|w vals IH]; simpl.
  - split; [lia | tauto].
  - destruct IH as [H1 H2]. split; [lia|].
    intros [->|H]; [lia | specialize (H2 H); lia].
Qed.

Lemma displayDegree_pos (ls : list GraphLink) (k : string) : 1 <= displayDegree ls k.
Proof.
  unfold displayDegree. pose proof (localDegree_nonneg ls k).
  destruct (Z.eqb_spec (localDegree ls k) 0); lia.
Qed.

Lemma storedVal_displayDegree_some (ls : list GraphLink) (maxVal : Z)
  (n0 : GraphNode) :
  val (annotated (countDegrees ls) maxVal n0) = Some (displayDegree ls (id n0)).
Proof. simpl. rewrite storedVal_displayDegree. reflexivity. Qed.

Lemma assemble_val (this : NetworkBuilder) (st : NetworkBuilderState)
  (mode : RankingMode) (searched : bool) (seeds candidates0 : JsSet)
  (n : GraphNode) :
  let res := assemble this st mode searched seeds candidates0 in
  In n (nodesOf (fst res) (snd res)) ->
  val n = Some (displayDegree (links (snd res)) (id n)).
Proof.
  intros res Hn. unfold res in Hn. rewrite assemble_shown in Hn.
  apply in_map_iff in Hn. destruct Hn as [n0 [<- _]].
  unfold res. simpl id. apply storedVal_displayDegree_some.
Qed.

Lemma assemble_val_bounds (this : NetworkBuilder) (st : NetworkBuilderState)
  (mode : RankingMode) (searched : bool) (seeds candidates0 : JsSet)
  (n : GraphNode) :
  let res := assemble this st mode searched seeds candidates0 in
  let shown := nodesOf (fst res) (snd res) in
  In n shown ->
  exists v, val n = Some v /\ 1 <= v
            /\ v <= maxOf (map (fun m => displayDegree (links (snd res)) (id m)) shown).
Proof.
  intros res shown Hn. exists (displayDegree (links (snd res)) (id n)).
  split; [apply assemble_val, Hn|]. split; [apply displayDegree_pos|].
  apply maxOf_bounds.
  apply (in_map (fun m => displayDegree (links (snd res)) (id m))), Hn.
Qed.

(** X22: the [val] of a returned node is at least 1 and at most the maximum
    the colour scale divides by, so the strength [val / maxVal] of a node
    never exceeds 1. *)
Theorem buildNetwork_val_bounds (this : NetworkBuilder) (st : NetworkBuilderState)
  (logic : Logic) (mode : RankingMode) (n : GraphNode) :
  let res := buildNetwork this st logic mode in
  let shown := nodesOf (fst res) (snd res) in
  In n shown ->
  exists v, val n = Some v /\ 1 <= v
            /\ v <= maxOf (map (fun m => displayDegree (links (snd res)) (id m)) shown).
Proof.
  by_assemble assemble_val_bounds. tauto.
Qed.

Lemma buildNetwork_val_bounds_witness :
  let res := buildNetwork starGraph (showAll 10) OR global in
  exists v, val starA = Some v /\ 1 <= v
            /\ v <= maxOf (map (fun m => displayDegree (links (snd res)) (id m))
                               (nodesOf (fst res) (snd res))).
Proof.
  apply (buildNetwork_val_bounds starGraph (showAll 10) OR global starA).
  vm_compute. left. reflexivity.
Defined.

Lemma assemble_untruncated_val (this : NetworkBuilder) (st : NetworkBuilderState)
  (mode : RankingMode) (searched : bool) (seeds candidates0 : JsSet)
  (n : GraphNode) :
  let res := assemble this st mode searched seeds candidates0 in
  truncated (snd res) = false ->
  In n (nodesOf (fst res) (snd res)) ->
  val n = Some (localDegree (links (snd res)) (id n))
  /\ 1 <= localDegree (links (snd res)) (id n).
Proof.
  intros res Htr Hn.
  assert (Hpos : 0 < localDegree (links (snd res)) (id n)).
  { apply localDegree_pos, existsb_exists.
    destruct (assemble_no_isolated_node this st mode searched seeds candidates0
                n Htr Hn) as [l [Hl He]].
    exists l. split; [exact Hl | apply isEndOf_true, He]. }
  split; [|lia].
  rewrite (assemble_val this st mode searched seeds candidates0 n Hn).
  fold res. unfold displayDegree.
  destruct (Z.eqb_spec (localDegree (links (snd res)) (id n)) 0); [lia | reflexivity].
Qed.

(** X23: in a result that is not truncated the [val] of every returned node
    is exactly its degree within the returned links, and that degree is at
    least 1. *)
Theorem buildNetwork_untruncated_val (this : NetworkBuilder)
  (st : NetworkBuilderState) (logic : Logic) (mode : RankingMode) (n : GraphNode) :
  let res := buildNetwork this st logic mode in
  truncated (snd res) = false ->
  In n (nodesOf (fst res) (snd res)) ->
  val n = Some (localDegree (links (snd res)) (id n))
  /\ 1 <= localDegree (links (snd res)) (id n).
Proof.
  by_assemble assemble_untruncated_val. tauto.
Qed.

Lemma buildNetwork_untruncated_val_witness :
  let res := buildNetwork starGraph (showAll 10) OR global in
  val starA = Some (localDegree (links (snd res)) (id starA))
  /\ 1 <= localDegree (links (snd res)) (id starA).
Proof.
  apply (buildNetwork_untruncated_val starGraph (showAll 10) OR global starA).
  - vm_compute. reflexivity.
  - vm_compute. left. reflexivity.
Defined.


(** ** Terms that normalise to the empty string *)

Lemma includes_empty (s : string) : includes s EmptyString = true.
Proof. destruct s; reflexivity. Qed.

(** X24: a term that is empty once trimmed (an empty or blank term) is found
    in every value, so under OR logic it matches every node that has at least
    one searchable value for the chosen fields. *)
Theorem searchNodes_blank_term (this : NetworkBuilder) (term : string)
  (terms fields : list string) (node : GraphNode) :
  trim (toLowerCase term) = EmptyString ->
  In node (allNodes this) ->
  searchableValues node fields <> [] ->
  In (id node) (searchNodes this (term :: terms) fields OR).
Proof.
  intros Hblank Hnode Hvals.
  rewrite searchNodes_collect, newSet_In. apply in_map, filter_In.
  split; [exact Hnode|]. simpl. rewrite Hblank.
  destruct (searchableValues node fields) as [|v vs]; [congruence|].
  simpl. rewrite includes_empty. reflexivity.
Qed.

Lemma searchNodes_blank_term_witness :
  In (id incomeNode) (searchNodes incomeGraph ["  "; "gift"] ["text"] OR).
Proof.
  apply (searchNodes_blank_term incomeGraph "  " ["gift"] ["text"] incomeNode).
  - reflexivity.
  - left. reflexivity.
  - discriminate.
Defined.

(** ** filterByAttributes with a title list and a section list *)

(** X25: with no type given and both a title list and a section list given,
    the result holds exactly the ids of the nodes that pass the title test or
    the section test. *)
Theorem filterByAttributes_title_or_section (this : NetworkBuilder) (z : Z)
  (titles : list Z) (s : string) (sections : list string) (x : string) :
  In x (filterByAttributes this [] (z :: titles) (s :: sections))
  <-> exists node, In node (allNodes this) /\ id node = x
        /\ (titlePredicate (z :: titles) node = true
            \/ sectionPredicate (s :: sections) node = true).
Proof.
  rewrite filterByAttributes_collect, newSet_In, in_map_iff. split.
  - intros [node [Hid Hn]]. apply filter_In in Hn. destruct Hn as [Hn Hm].
    rewrite attributesMatch_both in Hm. apply orb_true_iff in Hm.
    exists node. tauto.
  - intros [node [Hn [Hid Hm]]]. exists node. split; [exact Hid|].
    apply filter_In. split; [exact Hn|].
    rewrite attributesMatch_both. apply orb_true_iff, Hm.
Qed.

(** ** The size of an expansion *)

Lemma set_add_length (x : string) (s : JsSet) :
  (length (set_add x s) <= S (length s))%nat.
Proof.
  unfold set_add. destruct (set_has s x); [lia|]. rewrite length_app. simpl. lia.
Qed.

Lemma discover_fold_length (ns : list Neighbor) (E L : JsSet) :
  let st := fold_left discover ns (E, L) in
  (length (fst st) <= length E + length ns)%nat
  /\ (length (snd st) <= length L + length ns)%nat.
Proof.
  revert E L. induction ns as [|n ns IH]; intros E L; simpl; [lia|].
  destruct (set_has E (neighborId n)).
  - destruct (IH E L). simpl in *. lia.
  - destruct (IH (set_add (neighborId n) E) (set_add (neighborId n) L)).
    pose proof (set_add_length (neighborId n) E).
    pose proof (set_add_length (neighborId n) L).
    simpl in *. lia.
Qed.

Lemma limitedNeighbors_length (this : NetworkBuilder) (maxN : Z)
  (allowed : list string) (y : string) :
  0 < maxN ->
  (length (limitedNeighbors this maxN allowed y) <= Z.to_nat maxN)%nat.
Proof.
  intros Hpos. unfold limitedNeighbors.
  destruct (Z.ltb_spec 0 maxN); [|lia].
  rewrite slice0_length by lia. lia.
Qed.

Lemma flat_map_length_bound {A B : Type} (f : A -> list B) (l : list A) (m : nat) :
  (forall x, length (f x) <= m)%nat ->
  (length (flat_map f l) <= length l * m)%nat.
Proof.
  intros H. induction l as [|x l IH]; simpl; [lia|].
  rewrite length_app. specialize (H x). lia.
Qed.

Lemma expandLoop_length (this : NetworkBuilder) (maxN : Z) (allowed : list string)
  (rounds : nat) (E layer : JsSet) :
  0 < maxN ->
  (length (expandLoop this maxN allowed rounds E layer) + length layer
   <= length E + length layer * geometric (Z.to_nat maxN) rounds)%nat.
Proof.
  intros Hpos. revert E layer.
  induction rounds as [|rounds IH]; intros E layer; simpl; [lia|].
  unfold visit. rewrite (fold_left_flat_map discover (limitedNeighbors this maxN allowed)).
  pose proof (discover_fold_length
                (flat_map (limitedNeighbors this maxN allowed) layer) E []) as Hlen.
  cbv zeta in Hlen.
  pose proof (flat_map_length_bound (limitedNeighbors this maxN allowed) layer
                (Z.to_nat maxN)
                (fun y => limitedNeighbors_length this maxN allowed y Hpos)) as Hflat.
  match type of Hlen with
  | context [fst ?t] =>
      match goal with
      | |- context [match ?t' with pair _ _ => _ end] => change t' with t
      end;
      destruct t as [E' next]
  end.
  simpl in Hlen. destruct Hlen as [HE Hnext].
  assert (Hg : (1 <= geometric (Z.to_nat maxN) rounds)%nat)
    by (destruct rounds; simpl; lia).
  set (G := geometric (Z.to_nat maxN) rounds) in *.
  set (f := length (flat_map (limitedNeighbors this maxN allowed) layer)) in *.
  assert (Hf : (f * G <= length layer * (Z.to_nat maxN * G))%nat).
  { rewrite Nat.mul_assoc. apply Nat.mul_le_mono_r. exact Hflat. }
  assert (HfG : (f * 1 <= f * G)%nat) by (apply Nat.mul_le_mono_l; exact Hg).
  assert (Hn : (length next * G + f <= f * G + length next)%nat).
  { clearbody G f. clear - Hnext Hg.
    destruct (Nat.le_exists_sub _ _ Hnext) as [k [-> _]].
    destruct (Nat.le_exists_sub _ _ Hg) as [g [-> _]]. nia. }
  rewrite Nat.mul_succ_r.
  destruct (length next =? 0)%nat.
  - lia.
  - specialize (IH E' next). fold G in IH. lia.
Qed.

(** X26: with a positive neighbour cap [m], an expansion of depth [d] from a
    set of seeds holds at most [1 + m + ... + m^d] ids per seed. *)
Theorem expandFromSeeds_size_bound (this : NetworkBuilder) (seeds : JsSet)
  (depth maxN : Z) (allowed : list string) :
  NoDup seeds -> 0 < maxN ->
  (length (expandFromSeeds this seeds depth maxN allowed)
   <= length seeds * geometric (Z.to_nat maxN) (Z.to_nat depth))%nat.
Proof.
  intros Hnd Hpos. unfold expandFromSeeds. rewrite (newSet_id seeds Hnd).
  pose proof (expandLoop_length this maxN allowed (Z.to_nat depth) seeds seeds Hpos).
  lia.
Qed.

Lemma expandFromSeeds_size_bound_witness :
  (length (expandFromSeeds starGraph ["A"] 2 2 [])
   <= length ["A"] * geometric (Z.to_nat 2) (Z.to_nat 2))%nat.
Proof.
  apply (expandFromSeeds_size_bound starGraph ["A"] 2 2 []).
  - repeat constructor. intros [].
  - lia.
Defined.

(** ** A cap that cannot bite *)

Lemma assemble_large_cap (this : NetworkBuilder) (st : NetworkBuilderState)
  (mode : RankingMode) (searched : bool) (seeds candidates0 : JsSet) :
  Z.of_nat (length (allNodes this)) <= maxTotalNodes st ->
  truncated (snd (assemble this st mode searched seeds candidates0)) = false.
Proof.
  intros Hcap.
  destruct (assemble_counts this st mode searched seeds candidates0)
    as (_ & Hmatched & _).
  destruct (assemble_nodes_links this st mode searched seeds candidates0)
    as (_ & _ & -> & Hm).
  rewrite Hm in Hmatched. rewrite Z.gtb_ltb. apply Z.ltb_ge. lia.
Qed.

(** X27: a cap of at least the number of base nodes never truncates. *)
Theorem buildNetwork_large_cap (this : NetworkBuilder) (st : NetworkBuilderState)
  (logic : Logic) (mode : RankingMode) :
  Z.of_nat (length (allNodes this)) <= maxTotalNodes st ->
  truncated (snd (buildNetwork this st logic mode)) = false.
Proof.
  intros Hcap. unfold buildNetwork.
  destruct ((0 <? length (searchTerms st))%nat && (0 <? length (searchFields st))%nat).
  - destruct (length (searchNodes this (searchTerms st) (searchFields st) logic) =? 0)%nat.
    + reflexivity.
    + apply assemble_large_cap, Hcap.
  - apply assemble_large_cap, Hcap.
Qed.

Lemma buildNetwork_large_cap_witness :
  truncated (snd (buildNetwork starGraph (showAll 5) AND subgraph)) = false.
Proof.
  apply (buildNetwork_large_cap starGraph (showAll 5) AND subgraph).
  simpl. lia.
Defined.

(** ** The view without a search *)

Lemma allIds_map_has (store : list GraphNode) (k : string) :
  map_has (nodeMap store (newSet (map id store))) k = true
  <-> exists n, In n store /\ id n = k.
Proof.
  rewrite nodeMap_has, newSet_In, in_map_iff. split; [tauto|].
  intros [n [Hn Hid]]. split; exists n; tauto.
Qed.

Lemma assemble_default_view (this : NetworkBuilder) (st : NetworkBuilderState)
  (mode : RankingMode) (k : string) :
  let res := assemble this st mode false [] (newSet (map id (allNodes this))) in
  truncated (snd res) = false ->
  (In k (map id (nodesOf (fst res) (snd res)))
   <-> exists l, In l (allLinks this) /\ edgeTypeMatch st l = true
         /\ (k = sourceId l \/ k = targetId l)
         /\ (exists n, In n (allNodes this) /\ id n = sourceId l)
         /\ (exists m, In m (allNodes this) /\ id m = targetId l)).
Proof.
  intros res Htr. unfold res. rewrite assemble_shown_ids, selected_keys.
  destruct (assemble_nodes_links this st mode false []
              (newSet (map id (allNodes this)))) as (_ & _ & Ht & _).
  fold res in Ht. rewrite Htr in Ht.
  destruct (finalAfter_connected this st mode false []
              (newSet (map id (allNodes this)))) as [p [Hp ->]].
  rewrite <- Ht.
  assert (Hin : In k p <-> In k (connectedAfter this st false []
                                   (newSet (map id (allNodes this))))).
  { split; [apply (Permutation_in _ Hp)
           | apply (Permutation_in _ (Permutation_sym Hp))]. }
  rewrite Hin. unfold connectedAfter. rewrite connected_In.
  unfold candidateNodeIdsOf. simpl andb. cbv iota.
  rewrite existsb_exists. unfold candidateLinksOf. split.
  - intros [_ [l [Hl He]]]. apply filter_In in Hl. destruct Hl as [Hl Hc].
    apply andb_true_iff in Hc. destruct Hc as [Hty Hboth].
    unfold bothIn in Hboth. apply andb_true_iff in Hboth.
    destruct Hboth as [Hs Htg].
    apply allIds_map_has in Hs. apply allIds_map_has in Htg.
    apply isEndOf_true in He. exists l. tauto.
  - intros [l (Hl & Hty & He & Hs & Htg)].
    apply allIds_map_has in Hs. apply allIds_map_has in Htg. split.
    + destruct He as [-> | ->]; assumption.
    + exists l. split; [|apply isEndOf_true, He].
      apply filter_In. split; [exact Hl|].
      unfold bothIn. rewrite Hty, Hs, Htg. reflexivity.
Qed.

(** X28: without a search (no term or no field) and without truncation, the
    returned nodes are exactly the ends of the links that have an allowed
    edge type and two ends that are ids of base nodes: isolated nodes and the
    ends of dangling links alone are left out. *)
Theorem buildNetwork_default_view (this : NetworkBuilder)
  (st : NetworkBuilderState) (logic : Logic) (mode : RankingMode) (k : string) :
  searchTerms st = [] \/ searchFields st = [] ->
  truncated (snd (buildNetwork this st logic mode)) = false ->
  (In k (map id (nodesOf (fst (buildNetwork this st logic mode))
                         (snd (buildNetwork this st logic mode))))
   <-> exists l, In l (allLinks this) /\ edgeTypeMatch st l = true
         /\ (k = sourceId l \/ k = targetId l)
         /\ (exists n, In n (allNodes this) /\ id n = sourceId l)
         /\ (exists m, In m (allNodes this) /\ id m = targetId l)).
Proof.
  intros Hno. unfold buildNetwork.
  assert (E : (0 <? length (searchTerms st))%nat && (0 <? length (searchFields st))%nat
              = false).
  { destruct Hno as [-> | ->]; [reflexivity | apply andb_false_r]. }
  rewrite E. apply assemble_default_view.
Qed.

Lemma buildNetwork_default_view_witness :
  In "D" (map id (nodesOf (fst (buildNetwork danglingGraph (showAll 10) OR global))
                          (snd (buildNetwork danglingGraph (showAll 10) OR global))))
  <-> exists l, In l (allLinks danglingGraph)
        /\ edgeTypeMatch (showAll 10) l = true
        /\ ("D" = sourceId l \/ "D" = targetId l)
        /\ (exists n, In n (allNodes danglingGraph) /\ id n = sourceId l)
        /\ (exists m, In m (allNodes danglingGraph) /\ id m = targetId l).
Proof.
  apply (buildNetwork_default_view danglingGraph (showAll 10) OR global "D").
  - left. reflexivity.
  - vm_compute. reflexivity.
Defined.
